(** * Knightian innovation model: the helper routines of the solver

    A shallow embedding of [knightian_model/helper_functions.py] and of the
    part of numpy it runs on, followed by the properties of the
    specification.

    - [Py]      exceptions and the error monad of a Python call;
    - [Dtype]   the element type of an array with the operations the helpers
                use; [float64] is IEEE binary64 (what numpy computes with),
                [rational] is exact arithmetic;
    - [Np]      n-dimensional arrays: basic indexing with integers, [:] and
                [None], broadcasting, ufuncs, assignment through a view;
    - [Helpers] the four functions of the source file, line by line;
    - [Float64] binary64 values as rationals, and constants;
    - [KnightianModel] the validation done by the household constructor,
                which is outside the source file;
    - [Examples] the inputs the properties are evaluated on. *)

From Stdlib Require Import List Arith Bool Lia ZArith QArith Qcanon Floats Ring.
Import ListNotations.

Set Implicit Arguments.

Close Scope Qc_scope.
Close Scope Q_scope.
Open Scope nat_scope.

(** ** Python exceptions *)

Module Py.

Inductive exn : Type :=
| IndexError
| ValueError.

Definition result (T : Type) : Type := (exn + T)%type.

Definition ret {T : Type} (x : T) : result T := inr x.

Definition raise {T : Type} (e : exn) : result T := inl e.

Definition bind {T U : Type} (m : result T) (k : T -> result U) : result U :=
  match m with
  | inl e => inl e
  | inr x => k x
  end.

(** The call returned [x]. *)
Definition returns {T : Type} (m : result T) (x : T) : Prop := m = inr x.

(** The call raised [e]. *)
Definition raises {T : Type} (m : result T) (e : exn) : Prop := m = inl e.

End Py.

Import Py.

Declare Scope py_scope.
Delimit Scope py_scope with py.
Notation "x <- m ;; k" := (bind m (fun x => k))
  (at level 61, m at next level, right associativity) : py_scope.
Notation "' p <- m ;; k" := (bind m (fun x => let p := x in k))
  (at level 61, p pattern, m at next level, right associativity) : py_scope.
Open Scope py_scope.

(** ** Element types *)

(** The scalar operations applied to array elements.  [eqb], [ltb] and
    [leb] are Python's [==], [<] and [<=]; [isnan] and [isfinite] are
    numpy's. *)
Class Dtype (A : Type) : Type := {
  zero : A;
  one : A;
  add : A -> A -> A;
  sub : A -> A -> A;
  mul : A -> A -> A;
  eqb : A -> A -> bool;
  ltb : A -> A -> bool;
  leb : A -> A -> bool;
  isnan : A -> bool;
  isfinite : A -> bool
}.

(** [np.maximum] and [np.minimum] on two scalars, as numpy's inner loops
    compute them on x86-64: a NaN in [in1] is returned as it is, and
    otherwise the result is [in1 > in2 ? in1 : in2] (the [maxsd]
    instruction), and the same with [<].  So the second operand is
    returned when the two compare equal, as [0.0] and [-0.0] do, and when
    it is a NaN. *)
Definition maximum {A : Type} {D : Dtype A} (in1 in2 : A) : A :=
  if isnan in1 then in1 else if ltb in2 in1 then in1 else in2.

Definition minimum {A : Type} {D : Dtype A} (in1 in2 : A) : A :=
  if isnan in1 then in1 else if ltb in1 in2 then in1 else in2.

(** A count as a scalar: [float(n)]. *)
Fixpoint of_nat {A : Type} {D : Dtype A} (n : nat) : A :=
  match n with
  | 0 => zero
  | S n' => add one (of_nat n')
  end.

(** IEEE 754 binary64, the dtype of every array of the program. *)
#[export] Instance float64 : Dtype float := {|
  zero := 0%float;
  one := 1%float;
  add := PrimFloat.add;
  sub := PrimFloat.sub;
  mul := PrimFloat.mul;
  eqb := PrimFloat.eqb;
  ltb := PrimFloat.ltb;
  leb := PrimFloat.leb;
  isnan := PrimFloat.is_nan;
  isfinite := PrimFloat.is_finite
|}.

(** Exact arithmetic on rationals: the same operations without rounding,
    overflow or NaN. *)
#[export] Instance rational : Dtype Qc := {|
  zero := 0%Qc;
  one := 1%Qc;
  add := Qcplus;
  sub := Qcminus;
  mul := Qcmult;
  eqb := Qc_eq_bool;
  ltb := fun a b => negb (Qle_bool (this b) (this a));
  leb := fun a b => Qle_bool (this a) (this b);
  isnan := fun _ => false;
  isfinite := fun _ => true
|}.

(** A dtype whose arithmetic is exact: the operations form a commutative
    semiring and products of nonnegative elements are nonnegative.  The
    rationals are one; [float64] is not (its operations round). *)
Class ExactArith (A : Type) {D : Dtype A} : Prop := {
  exact_semiring : semi_ring_theory zero one add mul (@eq A);
  exact_mul_nonneg : forall a b : A,
    leb zero a = true -> leb zero b = true -> leb zero (mul a b) = true
}.

Arguments ExactArith A {D}.

(** ** numpy arrays *)

Module Np.

Section Arrays.

Context {A : Type} {D : Dtype A}.

(** An array is its shape and the element stored at each multi-index of the
    index box; [elem] is never read outside the box. *)
Record ndarray : Type := Ndarray {
  shape : list nat;
  elem : list nat -> A
}.

Definition ndim (a : ndarray) : nat := length (shape a).

(** [a.size] *)
Definition size (a : ndarray) : nat := fold_right Nat.mul 1 (shape a).

Fixpoint in_bounds (shp idx : list nat) : bool :=
  match shp, idx with
  | [], [] => true
  | n :: shp', i :: idx' => (i <? n) && in_bounds shp' idx'
  | _, _ => false
  end.

(** [a[i, j, ...]] with one integer per axis. *)
Definition item (a : ndarray) (idx : list nat) : result A :=
  if in_bounds (shape a) idx then ret (elem a idx) else raise IndexError.

(** The multi-indices of a shape in row-major order ([np.ndindex]). *)
Fixpoint indices (shp : list nat) : list (list nat) :=
  match shp with
  | [] => [[]]
  | n :: shp' => flat_map (fun i => map (cons i) (indices shp')) (seq 0 n)
  end.

(** [a.ravel()]: the elements in row-major order. *)
Definition ravel (a : ndarray) : list A := map (elem a) (indices (shape a)).

(** [a.sum()], accumulated from the left. *)
Definition sum (a : ndarray) : A := fold_left add (ravel a) zero.

(** [np.zeros(shp)], [np.zeros_like(a)] and [np.empty(shp)]; the last one
    returns whatever the memory holds, here [garbage]. *)
Definition zeros (shp : list nat) : ndarray := Ndarray shp (fun _ => zero).

Definition zeros_like (a : ndarray) : ndarray := zeros (shape a).

Definition empty (garbage : list nat -> A) (shp : list nat) : ndarray :=
  Ndarray shp garbage.

(** A Python scalar as an operand of a ufunc: a 0-dimensional array. *)
Definition scalar (c : A) : ndarray := Ndarray [] (fun _ => c).

(** [np.array([x0, x1, ...])] *)
Definition array1 (l : list A) : ndarray :=
  Ndarray [length l] (fun idx => nth (hd 0 idx) l zero).

(** [np.array([[...], [...], ...])] for rows of one length. *)
Definition array2 (rows : list (list A)) : ndarray :=
  Ndarray [length rows; length (hd [] rows)]
          (fun idx => nth (hd 0 (tl idx)) (nth (hd 0 idx) rows []) zero).

(** *** Basic indexing *)

Inductive index : Type :=
| Int (i : nat)
| Slice
| NewAxis.

(** The shape of [a[spec]] and, for each multi-index of the result, the
    multi-index of [a] it reads.  Axes the spec does not mention are taken
    whole; an integer out of range or an index beyond the last axis is an
    [IndexError]. *)
Fixpoint view (shp : list nat) (spec : list index)
  : result (list nat * (list nat -> list nat)) :=
  match spec with
  | [] => ret (shp, fun idx => idx)
  | Int i :: spec' =>
      match shp with
      | [] => raise IndexError
      | n :: shp' =>
          if i <? n then
            '(s, f) <- view shp' spec' ;;
            ret (s, fun idx => i :: f idx)
          else raise IndexError
      end
  | Slice :: spec' =>
      match shp with
      | [] => raise IndexError
      | n :: shp' =>
          '(s, f) <- view shp' spec' ;;
          ret (n :: s, fun idx => hd 0 idx :: f (tl idx))
      end
  | NewAxis :: spec' =>
      '(s, f) <- view shp spec' ;;
      ret (1 :: s, fun idx => f (tl idx))
  end.

(** [a[spec]] *)
Definition getitem (a : ndarray) (spec : list index) : result ndarray :=
  '(s, f) <- view (shape a) spec ;;
  ret (Ndarray s (fun idx => elem a (f idx))).

(** For a multi-index of [a], the multi-index of [a[spec]] that aliases it,
    if [spec] selects it. *)
Fixpoint unview (spec : list index) (idx : list nat) : option (list nat) :=
  match spec with
  | [] => Some idx
  | Int i :: spec' =>
      match idx with
      | [] => None
      | j :: idx' => if j =? i then unview spec' idx' else None
      end
  | Slice :: spec' =>
      match idx with
      | [] => None
      | j :: idx' => option_map (cons j) (unview spec' idx')
      end
  | NewAxis :: spec' => option_map (cons 0) (unview spec' idx)
  end.

(** *** Broadcasting *)

(** Shapes are aligned at their last axis: the functions below work on
    reversed shapes. *)
Definition bdim (n m : nat) : result nat :=
  if n =? m then ret n
  else if n =? 1 then ret m
  else if m =? 1 then ret n
  else raise ValueError.

Fixpoint broadcast_rev (r1 r2 : list nat) : result (list nat) :=
  match r1, r2 with
  | [], r => ret r
  | r, [] => ret r
  | n :: r1', m :: r2' =>
      d <- bdim n m ;;
      r <- broadcast_rev r1' r2' ;;
      ret (d :: r)
  end.

(** [np.broadcast_shapes(s1, s2)] *)
Definition broadcast_shapes (s1 s2 : list nat) : result (list nat) :=
  r <- broadcast_rev (rev s1) (rev s2) ;;
  ret (rev r).

(** An axis of length [n] can stand for one of length [m]. *)
Definition bcompat (n m : nat) : bool := (n =? m) || (n =? 1).

Fixpoint broadcastable_rev (src tgt : list nat) : bool :=
  match src, tgt with
  | [], _ => true
  | _ :: _, [] => false
  | n :: src', m :: tgt' => bcompat n m && broadcastable_rev src' tgt'
  end.

Fixpoint zip_with {X Y Z : Type} (f : X -> Y -> Z) (xs : list X) (ys : list Y)
  : list Z :=
  match xs, ys with
  | x :: xs', y :: ys' => f x y :: zip_with f xs' ys'
  | _, _ => []
  end.

(** The coordinate read on an axis of length [n] for coordinate [i] of the
    broadcast: an axis of length 1 is read at 0. *)
Definition bcoord (n i : nat) : nat := if n =? 1 then 0 else i.

(** The multi-index of an array of shape [shp] read at multi-index [idx] of
    a broadcast of it: leading axes of the broadcast are dropped. *)
Definition bidx (shp idx : list nat) : list nat :=
  zip_with bcoord shp (skipn (length idx - length shp) idx).

(** [np.broadcast_to(a, shp)] *)
Definition broadcast_to (a : ndarray) (shp : list nat) : result ndarray :=
  if broadcastable_rev (rev (shape a)) (rev shp)
  then ret (Ndarray shp (fun idx => elem a (bidx (shape a) idx)))
  else raise ValueError.

(** *** Elementwise operations *)

(** A binary ufunc: operands are broadcast to their common shape. *)
Definition ufunc2 (op : A -> A -> A) (a b : ndarray) : result ndarray :=
  shp <- broadcast_shapes (shape a) (shape b) ;;
  a' <- broadcast_to a shp ;;
  b' <- broadcast_to b shp ;;
  ret (Ndarray shp (fun idx => op (elem a' idx) (elem b' idx))).

(** A function of one scalar applied to every element. *)
Definition vectorize (f : A -> A) (a : ndarray) : ndarray :=
  Ndarray (shape a) (fun idx => f (elem a idx)).

(** *** Assignment *)

(** [a[spec] = v]: [v] is broadcast to the shape of the view and written
    through it. *)
Definition setitem (a : ndarray) (spec : list index) (v : ndarray)
  : result ndarray :=
  '(s, _) <- view (shape a) spec ;;
  v' <- broadcast_to v s ;;
  ret (Ndarray (shape a)
         (fun idx =>
            match unview spec idx with
            | Some j => elem v' j
            | None => elem a idx
            end)).

(** [a[spec] op= v]: the view is read first, the result of the ufunc must
    have the view's shape, and it is written back through the view. *)
Definition iop (op : A -> A -> A) (a : ndarray) (spec : list index)
  (v : result ndarray) : result ndarray :=
  t <- getitem a spec ;;
  v <- v ;;
  v' <- broadcast_to v (shape t) ;;
  r <- ufunc2 op t v' ;;
  setitem a spec r.

End Arrays.

Arguments ndarray A : clear implicits.

End Np.

Import Np.

Declare Scope np_scope.
Delimit Scope np_scope with np.
Notation "a .[ i , .. , j ]" := (getitem a (cons i .. (cons j nil) ..))
  (at level 1, left associativity, format "a .[ i ,  .. ,  j ]") : np_scope.
Open Scope np_scope.

(** ** helper_functions.py *)

Module Helpers.

Section Helpers.

Context {A : Type} {D : Dtype A}.

(** The tuple [states_vals]: [w_vals, ζ_vals, ι_vals, k_tilde_vals]. *)
Definition states : Type :=
  (ndarray A * ndarray A * ndarray A * ndarray A)%type.

(** [initialize_values_and_policies(states_vals, b_vals)] *)
Definition initialize_values_and_policies (states_vals : states)
  (b_vals : ndarray A)
  : ndarray A * ndarray A * ndarray A * ndarray A * ndarray A * ndarray A :=
  let '(w_vals, ζ_vals, ι_vals, k_tilde_vals) := states_vals in
  let V2_star := zeros [size ζ_vals; size k_tilde_vals; size ι_vals] in
  let V2_store := zeros_like V2_star in
  let V1_star := zeros [size ι_vals; size ζ_vals; size w_vals] in
  let V1_store := zeros_like V1_star in
  let b_av :=
    zeros [size ζ_vals; size k_tilde_vals; size b_vals; size ι_vals] in
  let k_tilde_av :=
    zeros [size ι_vals; size ζ_vals; size w_vals; size k_tilde_vals] in
  (V1_star, V1_store, V2_star, V2_store, b_av, k_tilde_av).

(** [create_uc_grid(u, states_vals, wage, min_c)].  [u] is the utility
    function, a map on scalars that numpy applies elementwise; [garbage] is
    what [np.empty] finds in memory. *)
Definition create_uc_grid (garbage : list nat -> A) (u : A -> A)
  (states_vals : states) (wage : A) (min_c : A) : result (ndarray A) :=
  let '(w_vals, ζ_vals, ι_vals, k_tilde_vals) := states_vals in
  let uc :=
    empty garbage [size ι_vals; size ζ_vals; size w_vals; size k_tilde_vals] in
  w4 <- w_vals.[NewAxis, NewAxis, Slice, NewAxis] ;;
  k4 <- k_tilde_vals.[NewAxis, NewAxis, NewAxis, Slice] ;;
  c <- ufunc2 sub w4 k4 ;;
  uc <- setitem uc [Slice; Slice; Slice; Slice] c ;;
  uc <- iop add uc [Int 0; Slice; Slice; Slice]
          (ζ3 <- ζ_vals.[Slice, NewAxis, NewAxis] ;;
           ufunc2 mul ζ3 (scalar wage)) ;;
  uc <- ufunc2 maximum uc (scalar min_c) ;;
  ret (vectorize u uc).

(** [create_next_w(r, δ_vals, k_tilde_vals, b_vals, R, Γ_star)] *)
Definition create_next_w (r : A) (δ_vals k_tilde_vals b_vals : ndarray A)
  (R Γ_star : A) : result (ndarray A * ndarray A) :=
  δ3 <- δ_vals.[Slice, NewAxis, NewAxis] ;;
  t1 <- ufunc2 mul (scalar (add one r)) δ3 ;;
  k3 <- k_tilde_vals.[NewAxis, Slice, NewAxis] ;;
  t2 <- ufunc2 mul t1 k3 ;;
  δ3' <- δ_vals.[Slice, NewAxis, NewAxis] ;;
  t3 <- ufunc2 mul (scalar (add one r)) δ3' ;;
  t4 <- ufunc2 sub (scalar R) t3 ;;
  b3 <- b_vals.[NewAxis, NewAxis, Slice] ;;
  t5 <- ufunc2 mul t4 b3 ;;
  next_w <- ufunc2 add t2 t5 ;;
  next_w_star <- ufunc2 add next_w (scalar Γ_star) ;;
  ret (next_w, next_w_star).

(** [create_P(P_δ, P_ζ, P_ι)] *)
Definition create_P (P_δ P_ζ P_ι : ndarray A) : result (ndarray A) :=
  d4 <- P_δ.[Slice, NewAxis, NewAxis, NewAxis] ;;
  z4 <- P_ζ.[NewAxis, Slice, Slice, NewAxis] ;;
  dz <- ufunc2 mul d4 z4 ;;
  i4 <- P_ι.[NewAxis, NewAxis, NewAxis, Slice] ;;
  ufunc2 mul dz i4.

End Helpers.

End Helpers.

Import Helpers.

(** ** Predicates on arrays *)

Section Distributions.

Context {A : Type} {D : Dtype A}.

(** Every element is [>= 0]. *)
Definition nonnegative (P : ndarray A) : Prop :=
  Forall (fun p => leb zero p = true) (ravel P).

(** [P.sum() == 1] *)
Definition sums_to_one (P : ndarray A) : Prop := sum P = one.

(** The sums of the rows [P[i]] of a matrix, [P.sum(axis=1)]. *)
Definition row_sums (P : ndarray A) : list (result A) :=
  map (fun i => row <- P.[Int i] ;; ret (sum row)) (seq 0 (hd 0 (shape P))).

(** Every element inside the index box is 0. *)
Definition all_zero (a : ndarray A) : Prop :=
  forall idx, in_bounds (shape a) idx = true -> item a idx = ret zero.

(** Consumption before the floor at grid point (i, z, w, k): wealth minus
    net investment, plus labor income in the branch of invention index 0. *)
Definition raw_consumption (w_vals ζ_vals k_tilde_vals : ndarray A)
  (wage : A) (i z w k : nat) : A :=
  let c := sub (elem w_vals [w]) (elem k_tilde_vals [k]) in
  if i =? 0 then add c (mul (elem ζ_vals [z]) wage) else c.

(** A probability vector: nonnegative, summing to 1. *)
Definition distribution (P : ndarray A) : Prop :=
  nonnegative P /\ sums_to_one P.

(** A transition matrix: nonnegative, every row summing to 1. *)
Definition stochastic (P : ndarray A) : Prop :=
  nonnegative P /\ Forall (fun s => s = ret one) (row_sums P).

End Distributions.

(** ** binary64 values as numbers *)

Module Float64.

(** The rational a finite float stands for (0 for infinities and NaN). *)
Definition exact_value (x : float) : Q :=
  match Prim2SF x with
  | S754_finite s m e =>
      (inject_Z (if s then Z.neg m else Z.pos m) * Qpower 2 e)%Q
  | _ => 0%Q
  end.

(** The sum of the elements of an array as a rational, without rounding. *)
Definition exact_sum (a : ndarray float) : Q :=
  fold_right Qplus 0%Q (map exact_value (ravel a)).

(** A utility that is linear up to 1 and flat above: [np.minimum(c, 1.0)]. *)
Definition capped (c : float) : float := minimum c 1%float.

(** The default consumption floor, [min_c=1e-20]. *)
#[warnings="-inexact-float"] Definition default_min_c : float :=
  1e-20%float.

(** The largest power of two, [2.0 ** 1023]. *)
Definition huge : float := 0x1p+1023%float.

(** [0.75 + 2.0 ** -53] and [0.25 - 2.0 ** -53]: two floats whose sum is
    exactly 1. *)
Definition three_quarters_up : float := 0x1.8000000000001p-1%float.

Definition one_quarter_down : float := 0x1.ffffffffffffcp-3%float.

End Float64.

(** ** Constructing the households *)

Module KnightianModel.

Section Construction.

Context {A : Type} {D : Dtype A}.

(** Modelled from the spec: the arguments of the household constructor
    [KIMHouseholds] of knightian_model.py, which is not among the sources
    (its tests are): the bounded scalars, and each shock grid with its
    distribution. *)
Record parameters : Type := Parameters {
  α : A;
  β : A;
  π : A;
  δ_vals : ndarray A;
  P_δ : ndarray A;
  ζ_vals : ndarray A;
  P_ζ : ndarray A;
  ι_vals : ndarray A;
  P_ι : ndarray A
}.

(** Modelled from the spec: the two construction errors of its error
    taxonomy; the tests expect a [ValueError] for either. *)
Inductive error : Type :=
| InvalidParameter
| ShapeMismatch.

(** Modelled from the spec: a bounded scalar is outside [[0, 1]]. *)
Definition outside_unit (x : A) : bool := negb (leb zero x && leb x one).

(** Modelled from the spec: an entry of the distribution is negative. *)
Definition has_negative (P : ndarray A) : bool :=
  existsb (fun p => ltb p zero) (ravel P).

(** Modelled from the spec: an entry of the distribution is above 1. *)
Definition has_above_one (P : ndarray A) : bool :=
  existsb (fun p => ltb one p) (ravel P).

(** Modelled from the spec: the sums along the relevant axis, the last
    one: the sum of a vector, the sums of the rows of a matrix. *)
Definition sums_last_axis (P : ndarray A) : list A :=
  map (fun idx =>
         fold_left add
           (map (fun j => elem P (idx ++ [j])) (seq 0 (last (shape P) 1)))
           zero)
      (indices (removelast (shape P))).

(** Modelled from the spec: the distribution does not sum to 1. *)
Definition bad_sum (P : ndarray A) : bool :=
  existsb (fun s => negb (eqb s one)) (sums_last_axis P).

(** Modelled from the spec: the three ways a distribution violates its
    domain. *)
Definition invalid_distribution (P : ndarray A) : bool :=
  has_negative P || has_above_one P || bad_sum P.

(** Modelled from the spec: the size of a distribution is not the size of
    its grid. *)
Definition vector_mismatch (P vals : ndarray A) : bool :=
  negb (size P =? size vals).

(** Modelled from the spec: the shape of the transition matrix is not
    |vals| × |vals|. *)
Definition matrix_mismatch (P vals : ndarray A) : bool :=
  negb (if list_eq_dec Nat.eq_dec (shape P) [size vals; size vals]
        then true else false).

(** Modelled from the spec: a distribution or a bounded scalar violates
    its domain constraint. *)
Definition domain_violation (p : parameters) : bool :=
  outside_unit (α p) || outside_unit (β p) || outside_unit (π p) ||
  invalid_distribution (P_δ p) || invalid_distribution (P_ζ p) ||
  invalid_distribution (P_ι p).

(** Modelled from the spec: a distribution's shape does not match its
    grid. *)
Definition shape_violation (p : parameters) : bool :=
  vector_mismatch (P_δ p) (δ_vals p) || matrix_mismatch (P_ζ p) (ζ_vals p) ||
  vector_mismatch (P_ι p) (ι_vals p).

(** Modelled from the spec: the errors construction reports.  The spec says
    when each error is raised and fixes no order between the checks, so the
    model keeps every error that applies; a Python constructor raises one
    of them. *)
Definition validate (p : parameters) : list error :=
  (if domain_violation p then [InvalidParameter] else []) ++
  (if shape_violation p then [ShapeMismatch] else []).

(** Modelled from the spec: the constructed object holds the validated
    parameters; a solve starts from it. *)
Record households : Type := Households { params : parameters }.

(** Modelled from the spec: [KIMHouseholds(...)] returns the object when no
    check fails, and otherwise aborts with the errors and no object. *)
Definition KIMHouseholds (p : parameters) : list error + households :=
  match validate p with
  | [] => inr (Households p)
  | errors => inl errors
  end.

(** Modelled from the spec: construction raised error [e]. *)
Definition rejects (p : parameters) (e : error) : Prop :=
  exists errors, KIMHouseholds p = inl errors /\ In e errors.

End Construction.

Arguments parameters A : clear implicits.
Arguments households A : clear implicits.

End KnightianModel.

(** ** Example inputs *)

Module Examples.

Import Float64.

Open Scope float_scope.

(** Grids of a small model. *)
Definition w_vals : ndarray float := array1 [1; 2; 3].

Definition ζ_vals : ndarray float := array1 [10; 20].

Definition ι_vals : ndarray float := array1 [0; 1].

Definition k_tilde_vals : ndarray float := array1 [0.5; 1.5].

Definition b_vals : ndarray float := array1 [0; 1].

Definition δ_vals : ndarray float := array1 [1; 2].

Definition zeroed : list nat -> float := fun _ => 0.

(** [create_uc_grid] on a grid without invention states. *)
Definition call_without_ι : result (ndarray float) :=
  create_uc_grid zeroed sqrt (w_vals, ζ_vals, array1 [], k_tilde_vals)
                 2 0.125.

(** [create_uc_grid] on finite grids whose consumption overflows: wealth
    [-2**1023], net investment [2**1023], productivity [2**1023], wage 2. *)
Definition call_overflowing : result (ndarray float) :=
  create_uc_grid zeroed capped
                 (array1 [- huge], array1 [huge], array1 [0], array1 [huge])
                 2 default_min_c.

(** A point mass, and a transition matrix with two rows. *)
Definition point_mass : ndarray float := array1 [1].

Definition two_rows : ndarray float := array2 [[0.5; 0.5]; [0.5; 0.5]].

(** A distribution whose products round, as a vector and as a one-row
    transition matrix. *)
Definition uneven : ndarray float :=
  array1 [three_quarters_up; one_quarter_down].

Definition uneven_row : ndarray float :=
  array2 [[three_quarters_up; one_quarter_down]].

(** Distributions over the rationals. *)
Definition quarters : ndarray Qc := array1 [Q2Qc (1 # 4); Q2Qc (3 # 4)].

Definition certain : ndarray Qc := array1 [Q2Qc 1].

Definition mixing : ndarray Qc :=
  array2 [[Q2Qc (1 # 2); Q2Qc (1 # 2)]; [Q2Qc (1 # 4); Q2Qc (3 # 4)]].

(** The arguments of the tests of the constructor: a valid household, and
    the invalid [P_δ], [δ_vals], [ζ_vals] and [P_ζ] of test_P_δ_invalid and
    test_shapes_invalid. *)
Definition valid : KnightianModel.parameters float :=
  KnightianModel.Parameters 0.5 0.5 0.25
    (array1 [1; 2]) (array1 [0.5; 0.5])
    (array1 [10; 20]) two_rows
    (array1 [0; 1]) (array1 [0.75; 0.25]).

Definition with_P_δ (P_δ : ndarray float)
  : KnightianModel.parameters float :=
  KnightianModel.Parameters 0.5 0.5 0.25
    (array1 [1; 2]) P_δ
    (array1 [10; 20]) two_rows
    (array1 [0; 1]) (array1 [0.75; 0.25]).

Definition P_δ_neg : ndarray float := array1 [-0.5; 0.5].

Definition P_δ_1 : ndarray float := array1 [1.5; 0.5].

Definition P_δ_sum : ndarray float := array1 [0.25; 0.25; 0.25; 0.25; 0.25].

#[warnings="-inexact-float"] Definition long_δ
  : KnightianModel.parameters float :=
  KnightianModel.Parameters 0.5 0.5 0.25
    (array1 [1; 1.1; 1.2]) (array1 [0.5; 0.5])
    (array1 [10; 20]) two_rows
    (array1 [0; 1]) (array1 [0.75; 0.25]).

Definition P_ζ1 : ndarray float :=
  array2 [[1 / 3; 1 / 3; 1 / 3]; [1 / 3; 1 / 3; 1 / 3]].

Definition wide_P_ζ : KnightianModel.parameters float :=
  KnightianModel.Parameters 0.5 0.5 0.25
    (array1 [1; 2]) (array1 [0.5; 0.5])
    (array1 [0.5; 1.5; 2.5]) P_ζ1
    (array1 [0; 1]) (array1 [0.75; 0.25]).

Definition with_α (α : float) : KnightianModel.parameters float :=
  KnightianModel.Parameters α 0.5 0.25
    (array1 [1; 2]) (array1 [0.5; 0.5])
    (array1 [10; 20]) two_rows
    (array1 [0; 1]) (array1 [0.75; 0.25]).

End Examples.


(** ** Further predicates *)

Section Comparing.

Context {A : Type} {D : Dtype A}.

(** Two arrays of one shape with the same elements inside the index box. *)
Definition same_contents (a b : ndarray A) : Prop :=
  shape a = shape b /\
  forall idx, in_bounds (shape a) idx = true -> elem a idx = elem b idx.

(** Two calls that raise the same exception or return the same contents. *)
Definition same_outcome (r1 r2 : result (ndarray A)) : Prop :=
  match r1, r2 with
  | inl e1, inl e2 => e1 = e2
  | inr a, inr b => same_contents a b
  | _, _ => False
  end.

(** A function on scalars that preserves [<=] from [m] on. *)
Definition nondecreasing_from (m : A) (u : A -> A) : Prop :=
  forall a b, leb m a = true -> leb a b = true -> leb (u a) (u b) = true.

End Comparing.

(** A dtype whose subtraction is exact: it undoes addition.  The rationals
    are one; [float64] is not. *)
Class ExactSub (A : Type) {D : Dtype A} : Prop := {
  sub_add : forall a b : A, add (sub a b) b = a
}.

Arguments ExactSub A {D}.

(** ** Grids over the rationals *)

Module ExactExamples.

Definition k_tilde_vals : ndarray Qc := array1 [Q2Qc (1 # 2); Q2Qc 1].

Definition b_vals : ndarray Qc := array1 [Q2Qc 0; Q2Qc 1].

Definition δ_vals : ndarray Qc := array1 [Q2Qc (9 # 10); Q2Qc (11 # 10)].

End ExactExamples.
(** * Properties *)

(** ** The array model *)

Arguments bdim : simpl never.
Arguments bcompat : simpl never.
Arguments bcoord : simpl never.

Section ArrayFacts.

Context {A : Type} {D : Dtype A}.

Lemma bdim_refl (n : nat) : bdim n n = ret n.
Proof. unfold bdim. now rewrite Nat.eqb_refl. Qed.

Lemma bdim_1_l (m : nat) : bdim 1 m = ret m.
Proof.
  unfold bdim. destruct (Nat.eqb_spec 1 m) as [<- | _]; reflexivity.
Qed.

Lemma bdim_1_r (n : nat) : bdim n 1 = ret n.
Proof.
  unfold bdim. destruct (Nat.eqb_spec n 1) as [-> | _]; reflexivity.
Qed.

Lemma bcompat_refl (n : nat) : bcompat n n = true.
Proof. unfold bcompat. now rewrite Nat.eqb_refl. Qed.

Lemma bcompat_1_l (m : nat) : bcompat 1 m = true.
Proof. unfold bcompat. apply orb_true_r. Qed.

Lemma bcoord_lt (n i : nat) : i < n -> bcoord n i = i.
Proof.
  unfold bcoord. destruct (Nat.eqb_spec n 1) as [-> | _]; lia.
Qed.

Lemma bdim_compat (n m d : nat) :
  bdim n m = ret d -> bcompat n d = true /\ bcompat m d = true.
Proof.
  unfold bdim, bcompat, ret, raise.
  destruct (Nat.eqb_spec n m) as [-> | Hnm].
  - intros [= ->]. now rewrite Nat.eqb_refl.
  - destruct (Nat.eqb_spec n 1) as [-> | Hn].
    + intros [= ->]. rewrite Nat.eqb_refl. now rewrite orb_true_r.
    + destruct (Nat.eqb_spec m 1) as [-> | Hm]; [|discriminate].
      intros [= ->]. rewrite !Nat.eqb_refl. now rewrite orb_true_r.
Qed.

Lemma broadcastable_rev_refl (r : list nat) : broadcastable_rev r r = true.
Proof.
  induction r as [|n r IH]; simpl; [reflexivity|].
  now rewrite bcompat_refl, IH.
Qed.

Lemma broadcast_rev_compat (r1 r2 r : list nat) :
  broadcast_rev r1 r2 = ret r ->
  broadcastable_rev r1 r = true /\ broadcastable_rev r2 r = true.
Proof.
  revert r2 r.
  induction r1 as [|n r1 IH]; intros [|m r2] r; simpl.
  - intros [= <-]. auto.
  - intros [= <-]. split; [reflexivity|exact (broadcastable_rev_refl (m :: r2))].
  - intros [= <-]. split; [exact (broadcastable_rev_refl (n :: r1))|reflexivity].
  - destruct (bdim n m) as [e|d] eqn:Hd; simpl; [discriminate|].
    destruct (broadcast_rev r1 r2) as [e|r'] eqn:Hr; simpl; [discriminate|].
    intros [= <-]. simpl.
    destruct (bdim_compat _ _ Hd) as [-> ->].
    destruct (IH _ _ Hr) as [-> ->]. auto.
Qed.

(** A ufunc whose operands broadcast returns the array of the operation
    applied to the broadcast operands. *)
Lemma ufunc2_ok (op : A -> A -> A) (a b : ndarray A) (shp : list nat) :
  broadcast_shapes (shape a) (shape b) = ret shp ->
  ufunc2 op a b =
  ret (Ndarray shp (fun idx => op (elem a (bidx (shape a) idx))
                                  (elem b (bidx (shape b) idx)))).
Proof.
  unfold ufunc2, broadcast_shapes. intros H.
  destruct (broadcast_rev (rev (shape a)) (rev (shape b))) as [e|r] eqn:Hr;
    simpl in H; [discriminate|].
  injection H as <-. simpl.
  destruct (broadcast_rev_compat _ _ Hr) as [Ha Hb].
  unfold broadcast_to. rewrite rev_involutive, Ha, Hb. reflexivity.
Qed.

Lemma broadcast_to_ok (a : ndarray A) (shp : list nat) :
  broadcastable_rev (rev (shape a)) (rev shp) = true ->
  broadcast_to a shp =
  ret (Ndarray shp (fun idx => elem a (bidx (shape a) idx))).
Proof. unfold broadcast_to. now intros ->. Qed.

Lemma zeros_all_zero (shp : list nat) : all_zero (zeros shp).
Proof. intros idx H. unfold item. simpl in *. now rewrite H. Qed.

End ArrayFacts.

Ltac bshape :=
  unfold broadcast_shapes; simpl;
  repeat (first [rewrite bdim_1_l | rewrite bdim_1_r | rewrite bdim_refl]; simpl);
  reflexivity.

Ltac bcast :=
  simpl; rewrite ?bcompat_refl, ?bcompat_1_l; reflexivity.

Ltac ufunc :=
  first [erewrite ufunc2_ok by bshape | erewrite broadcast_to_ok by bcast];
  simpl.

Ltac in_box :=
  repeat match goal with
  | H : ?i < ?n |- context [?i <? ?n] => rewrite (proj2 (Nat.ltb_lt i n) H)
  | H : ?i < ?n |- context [bcoord ?n ?i] => rewrite (bcoord_lt H)
  end.

(** ** Initial values and policies *)

Section Initialize.

Context {A : Type} {D : Dtype A}.

(** C5.  For all grids, of any sizes, [initialize_values_and_policies]
    returns six arrays of zeros: [V1_star] and [V1_store] of shape
    (|ι|,|ζ|,|w|), [V2_star] and [V2_store] of shape (|ζ|,|k_tilde|,|ι|),
    [b_av] of shape (|ζ|,|k_tilde|,|b|,|ι|) and [k_tilde_av] of shape
    (|ι|,|ζ|,|w|,|k_tilde|). *)
Theorem initialize_values_and_policies_zeros
  (w_vals ζ_vals ι_vals k_tilde_vals b_vals : ndarray A) :
  let '(V1_star, V1_store, V2_star, V2_store, b_av, k_tilde_av) :=
    initialize_values_and_policies
      (w_vals, ζ_vals, ι_vals, k_tilde_vals) b_vals in
  (shape V1_star = [size ι_vals; size ζ_vals; size w_vals] /\
   all_zero V1_star) /\
  (shape V1_store = [size ι_vals; size ζ_vals; size w_vals] /\
   all_zero V1_store) /\
  (shape V2_star = [size ζ_vals; size k_tilde_vals; size ι_vals] /\
   all_zero V2_star) /\
  (shape V2_store = [size ζ_vals; size k_tilde_vals; size ι_vals] /\
   all_zero V2_store) /\
  (shape b_av =
     [size ζ_vals; size k_tilde_vals; size b_vals; size ι_vals] /\
   all_zero b_av) /\
  (shape k_tilde_av =
     [size ι_vals; size ζ_vals; size w_vals; size k_tilde_vals] /\
   all_zero k_tilde_av).
Proof.
  unfold initialize_values_and_policies, zeros_like. simpl.
  repeat split; apply zeros_all_zero.
Qed.

(** Grids of one point each give arrays of one zero. *)
Example initialize_values_and_policies_degenerate (w ζ ι k b : A) :
  let '(V1_star, _, V2_star, _, b_av, k_tilde_av) :=
    initialize_values_and_policies
      (array1 [w], array1 [ζ], array1 [ι], array1 [k]) (array1 [b]) in
  ravel V1_star = [zero] /\ ravel V2_star = [zero] /\
  ravel b_av = [zero] /\ ravel k_tilde_av = [zero].
Proof. repeat split. Qed.

End Initialize.

(** ** The joint transition tensor *)

Section CreateP.

Context {A : Type} {D : Dtype A}.

(** What [create_P] returns on a vector, a matrix and a vector. *)
Lemma create_P_value (P_δ P_ζ P_ι : ndarray A) (nδ n1 n2 nι : nat) :
  shape P_δ = [nδ] -> shape P_ζ = [n1; n2] -> shape P_ι = [nι] ->
  exists P,
    create_P P_δ P_ζ P_ι = ret P /\
    shape P = [nδ; n1; n2; nι] /\
    forall d zf zt i, d < nδ -> zf < n1 -> zt < n2 -> i < nι ->
      elem P [d; zf; zt; i] =
      mul (mul (elem P_δ [d]) (elem P_ζ [zf; zt])) (elem P_ι [i]).
Proof.
  intros Hδ Hζ Hι.
  unfold create_P, getitem. rewrite Hδ, Hζ, Hι. simpl.
  repeat ufunc.
  eexists. split; [reflexivity|]. split; [reflexivity|].
  intros d zf zt i Hd Hzf Hzt Hi. simpl.
  unfold bidx. simpl. in_box. reflexivity.
Qed.

(** C3.  For every one-dimensional [P_δ] and [P_ι] and two-dimensional
    [P_ζ], [create_P] returns the four-dimensional array with
    [P[δ, ζ_from, ζ_to, ι] = P_δ[δ] * P_ζ[ζ_from, ζ_to] * P_ι[ι]] at every
    index. *)
Theorem create_P_entries (P_δ P_ζ P_ι : ndarray A) (nδ n1 n2 nι : nat) :
  shape P_δ = [nδ] -> shape P_ζ = [n1; n2] -> shape P_ι = [nι] ->
  exists P,
    returns (create_P P_δ P_ζ P_ι) P /\
    shape P = [nδ; n1; n2; nι] /\
    forall d zf zt i, d < nδ -> zf < n1 -> zt < n2 -> i < nι ->
      item P [d; zf; zt; i] =
      ret (mul (mul (elem P_δ [d]) (elem P_ζ [zf; zt])) (elem P_ι [i])).
Proof.
  intros Hδ Hζ Hι.
  destruct (create_P_value _ _ _ Hδ Hζ Hι) as (P & HP & Hs & He).
  exists P. split; [exact HP|]. split; [exact Hs|].
  intros d zf zt i Hd Hzf Hzt Hi.
  unfold item. rewrite Hs. simpl. in_box. simpl.
  now rewrite He.
Qed.

End CreateP.

(** ** Next-period wealth *)

Section CreateNextW.

Context {A : Type} {D : Dtype A}.

(** C2.  For every [r], [R], [Γ_star] and grids [δ_vals], [k_tilde_vals],
    [b_vals], [create_next_w] returns two arrays of shape
    (|δ|,|k_tilde|,|b|) with
    [next_w[δ,k,b] = (1+r)*δ_vals[δ]*k_tilde_vals[k] +
                     (R - (1+r)*δ_vals[δ])*b_vals[b]]
    and [next_w_star[δ,k,b] = next_w[δ,k,b] + Γ_star]. *)
Theorem create_next_w_entries (r R Γ_star : A)
  (δ_vals k_tilde_vals b_vals : ndarray A) (nδ nk nb : nat) :
  shape δ_vals = [nδ] -> shape k_tilde_vals = [nk] -> shape b_vals = [nb] ->
  exists next_w next_w_star,
    returns (create_next_w r δ_vals k_tilde_vals b_vals R Γ_star)
            (next_w, next_w_star) /\
    shape next_w = [nδ; nk; nb] /\
    shape next_w_star = [nδ; nk; nb] /\
    forall d k b, d < nδ -> k < nk -> b < nb ->
      let w' :=
        add (mul (mul (add one r) (elem δ_vals [d])) (elem k_tilde_vals [k]))
            (mul (sub R (mul (add one r) (elem δ_vals [d])))
                 (elem b_vals [b])) in
      item next_w [d; k; b] = ret w' /\
      item next_w_star [d; k; b] = ret (add w' Γ_star).
Proof.
  intros Hδ Hk Hb.
  unfold create_next_w, getitem. rewrite Hδ, Hk, Hb. simpl.
  repeat ufunc.
  do 2 eexists. split; [reflexivity|]. split; [reflexivity|].
  split; [reflexivity|].
  intros d k b Hd Hk' Hb'. unfold item, bidx. simpl. in_box. simpl.
  split; reflexivity.
Qed.

End CreateNextW.

(** ** The utility grid *)

Section CreateUcGrid.

Context {A : Type} {D : Dtype A}.

Lemma size_vector (a : ndarray A) (n : nat) : shape a = [n] -> size a = n.
Proof. unfold size. intros ->. simpl. lia. Qed.

(** What [create_uc_grid] returns when there is an invention state. *)
Lemma create_uc_grid_value (garbage : list nat -> A) (u : A -> A)
  (w_vals ζ_vals ι_vals k_tilde_vals : ndarray A) (wage min_c : A)
  (nw nζ nι nk : nat) :
  shape w_vals = [nw] -> shape ζ_vals = [nζ] -> shape ι_vals = [nι] ->
  shape k_tilde_vals = [nk] -> 0 < nι ->
  exists uc,
    create_uc_grid garbage u (w_vals, ζ_vals, ι_vals, k_tilde_vals)
                   wage min_c = ret uc /\
    shape uc = [nι; nζ; nw; nk] /\
    forall i z w k, i < nι -> z < nζ -> w < nw -> k < nk ->
      elem uc [i; z; w; k] =
      u (maximum (raw_consumption w_vals ζ_vals k_tilde_vals wage i z w k)
                 min_c).
Proof.
  intros Hw Hζ Hι Hk Hpos.
  destruct nι as [|nι']; [lia|].
  unfold create_uc_grid, iop, getitem, setitem.
  rewrite (size_vector _ Hw), (size_vector _ Hζ), (size_vector _ Hι),
    (size_vector _ Hk).
  rewrite Hw, Hζ, Hk. simpl.
  repeat ufunc.
  eexists. split; [reflexivity|]. split; [reflexivity|].
  intros i z w k Hi Hz Hw' Hk'. unfold raw_consumption, bidx. simpl.
  in_box. destruct i as [|i]; simpl; in_box; reflexivity.
Qed.

(** C1, amended.  For every utility function [u], wage, floor [min_c] and
    grids [w_vals], [ζ_vals], [k_tilde_vals], and every grid [ι_vals] with
    at least one invention state, [create_uc_grid] returns an array of
    shape (|ι|,|ζ|,|w|,|k_tilde|) whose entry at (i,z,w,k) is [u] applied to
    the maximum of [min_c] and raw consumption, where raw consumption is
    [w_vals[w] - k_tilde_vals[k]], plus the labor income [ζ_vals[z] * wage]
    if and only if [i] is 0. *)
Theorem create_uc_grid_entries (garbage : list nat -> A) (u : A -> A)
  (w_vals ζ_vals ι_vals k_tilde_vals : ndarray A) (wage min_c : A)
  (nw nζ nι nk : nat) :
  shape w_vals = [nw] -> shape ζ_vals = [nζ] -> shape ι_vals = [nι] ->
  shape k_tilde_vals = [nk] -> 0 < nι ->
  exists uc,
    returns (create_uc_grid garbage u (w_vals, ζ_vals, ι_vals, k_tilde_vals)
                            wage min_c) uc /\
    shape uc = [nι; nζ; nw; nk] /\
    forall i z w k, i < nι -> z < nζ -> w < nw -> k < nk ->
      item uc [i; z; w; k] =
      ret (u (maximum
                (raw_consumption w_vals ζ_vals k_tilde_vals wage i z w k)
                min_c)).
Proof.
  intros Hw Hζ Hι Hk Hpos.
  destruct (@create_uc_grid_value garbage u _ _ _ _ wage min_c _ _ _ _
              Hw Hζ Hι Hk Hpos)
    as (uc & Huc & Hs & He).
  exists uc. split; [exact Huc|]. split; [exact Hs|].
  intros i z w k Hi Hz Hw' Hk'.
  unfold item. rewrite Hs. simpl. in_box. simpl.
  now rewrite He.
Qed.

End CreateUcGrid.

(** ** Sums over the index box *)

Section Indices.

Context {A : Type} {D : Dtype A}.

Lemma indices_in_bounds (shp idx : list nat) :
  In idx (indices shp) <-> in_bounds shp idx = true.
Proof.
  revert idx. induction shp as [|n shp IH]; intros idx; simpl.
  - destruct idx; split; intros H; try discriminate; auto.
    + destruct H as [H | []]. discriminate.
  - rewrite in_flat_map. split.
    + intros (i & Hi & Hin). apply in_map_iff in Hin as (idx' & <- & Hin).
      apply in_seq in Hi. apply IH in Hin. rewrite Hin.
      now rewrite (proj2 (Nat.ltb_lt i n)) by lia.
    + destruct idx as [|i idx']; [discriminate|].
      intros H. apply andb_true_iff in H as [Hi Hin].
      apply Nat.ltb_lt in Hi. exists i. split; [apply in_seq; lia|].
      apply in_map. now apply IH.
Qed.

Lemma in_bounds_cons (n : nat) (shp idx : list nat) :
  in_bounds (n :: shp) idx = true ->
  exists i idx', idx = i :: idx' /\ i < n /\ in_bounds shp idx' = true.
Proof.
  destruct idx as [|i idx']; simpl; [discriminate|].
  intros H. apply andb_true_iff in H as [Hi H].
  apply Nat.ltb_lt in Hi. eauto.
Qed.

Lemma in_bounds_nil (idx : list nat) : in_bounds [] idx = true -> idx = [].
Proof. destruct idx; [reflexivity|discriminate]. Qed.

Lemma nonnegative_elem (P : ndarray A) (idx : list nat) :
  nonnegative P -> in_bounds (shape P) idx = true ->
  leb zero (elem P idx) = true.
Proof.
  unfold nonnegative, ravel. rewrite Forall_forall. intros H Hin.
  apply H. apply in_map. now apply indices_in_bounds.
Qed.

Lemma nonnegative_intro (P : ndarray A) :
  (forall idx, in_bounds (shape P) idx = true ->
               leb zero (elem P idx) = true) ->
  nonnegative P.
Proof.
  intros H. unfold nonnegative, ravel. rewrite Forall_forall.
  intros x Hx. apply in_map_iff in Hx as (idx & <- & Hin).
  apply H. now apply indices_in_bounds.
Qed.

End Indices.

Section Exact.

Context {A : Type} {D : Dtype A} {E : ExactArith A}.

Local Notation "'Σ' l" := (fold_right add zero l) (at level 10, l at level 9).

Lemma add_zero_l (a : A) : add zero a = a.
Proof. apply (SRadd_0_l exact_semiring). Qed.

Lemma add_zero_r (a : A) : add a zero = a.
Proof. rewrite (SRadd_comm exact_semiring). apply add_zero_l. Qed.

Lemma mul_one_r (a : A) : mul a one = a.
Proof.
  rewrite (SRmul_comm exact_semiring). apply (SRmul_1_l exact_semiring).
Qed.

Lemma mul_zero_r (a : A) : mul a zero = zero.
Proof.
  rewrite (SRmul_comm exact_semiring). apply (SRmul_0_l exact_semiring).
Qed.

Lemma mul_add_distr_l (a b c : A) :
  mul a (add b c) = add (mul a b) (mul a c).
Proof.
  rewrite (SRmul_comm exact_semiring), (SRdistr_l exact_semiring).
  now rewrite (SRmul_comm exact_semiring b a),
    (SRmul_comm exact_semiring c a).
Qed.

Lemma fold_left_add (l : list A) (a : A) : fold_left add l a = add a (Σ l).
Proof.
  revert a. induction l as [|x l IH]; intros a; simpl.
  - now rewrite add_zero_r.
  - rewrite IH. now rewrite (SRadd_assoc exact_semiring).
Qed.

(** In exact arithmetic the order of summation does not matter. *)
Lemma sum_total (a : ndarray A) : sum a = Σ (ravel a).
Proof. unfold sum. rewrite fold_left_add. apply add_zero_l. Qed.

Lemma total_app (l1 l2 : list A) : Σ (l1 ++ l2) = add (Σ l1) (Σ l2).
Proof.
  induction l1 as [|x l1 IH]; simpl.
  - now rewrite add_zero_l.
  - rewrite IH. now rewrite (SRadd_assoc exact_semiring).
Qed.

Lemma total_flat_map {X Y : Type} (g : Y -> A) (f : X -> list Y)
  (l : list X) :
  Σ (map g (flat_map f l)) = Σ (map (fun x => Σ (map g (f x))) l).
Proof.
  induction l as [|x l IH]; simpl; [reflexivity|].
  now rewrite map_app, total_app, IH.
Qed.

Lemma total_scale_l {X : Type} (c : A) (g : X -> A) (l : list X) :
  Σ (map (fun x => mul c (g x)) l) = mul c (Σ (map g l)).
Proof.
  induction l as [|x l IH]; simpl.
  - now rewrite mul_zero_r.
  - now rewrite IH, mul_add_distr_l.
Qed.

Lemma total_scale_r {X : Type} (c : A) (g : X -> A) (l : list X) :
  Σ (map (fun x => mul (g x) c) l) = mul (Σ (map g l)) c.
Proof.
  rewrite (SRmul_comm exact_semiring), <- total_scale_l.
  f_equal. apply map_ext. intros x. apply (SRmul_comm exact_semiring).
Qed.

Lemma total_ones {X : Type} (l : list X) :
  Σ (map (fun _ => one) l) = of_nat (length l).
Proof. induction l as [|x l IH]; simpl; congruence. Qed.

Lemma total_ext {X : Type} (f g : X -> A) (l : list X) :
  (forall x, In x l -> f x = g x) -> Σ (map f l) = Σ (map g l).
Proof. intros H. f_equal. now apply map_ext_in. Qed.

(** The sum over an index box, one axis at a time. *)
Lemma total_indices_cons (g : list nat -> A) (n : nat) (shp : list nat) :
  Σ (map g (indices (n :: shp))) =
  Σ (map (fun i => Σ (map (fun idx => g (i :: idx)) (indices shp)))
         (seq 0 n)).
Proof.
  simpl. rewrite total_flat_map. apply total_ext. intros i _.
  now rewrite map_map.
Qed.

Lemma total_indices_nil (g : list nat -> A) : Σ (map g (indices [])) = g [].
Proof. simpl. apply add_zero_r. Qed.

Lemma total_vector (g : list nat -> A) (n : nat) :
  Σ (map g (indices [n])) = Σ (map (fun i => g [i]) (seq 0 n)).
Proof.
  rewrite total_indices_cons. apply total_ext. intros i _.
  apply total_indices_nil.
Qed.

(** The sum of a vector and of a row of a matrix, as sums over a range. *)
Lemma sums_to_one_vector (P : ndarray A) (n : nat) :
  shape P = [n] -> sums_to_one P ->
  Σ (map (fun i => elem P [i]) (seq 0 n)) = one.
Proof.
  unfold sums_to_one. rewrite sum_total. unfold ravel. intros ->.
  now rewrite total_vector.
Qed.

Lemma stochastic_row (P : ndarray A) (n1 n2 i : nat) :
  shape P = [n1; n2] -> stochastic P -> i < n1 ->
  Σ (map (fun j => elem P [i; j]) (seq 0 n2)) = one.
Proof.
  intros Hs [_ H] Hi. unfold row_sums in H. rewrite Hs in H. simpl in H.
  rewrite Forall_forall in H.
  specialize (H _ (in_map _ _ i (proj2 (in_seq n1 0 i) (conj (Nat.le_0_l i) Hi)))).
  unfold getitem in H. rewrite Hs in H. simpl in H.
  rewrite (proj2 (Nat.ltb_lt i n1) Hi) in H. simpl in H.
  injection H as H. rewrite sum_total in H. unfold ravel in H. simpl shape in H.
  now rewrite total_vector in H.
Qed.

End Exact.

(** ** The joint transition tensor as a distribution *)

Section CreatePExact.

Context {A : Type} {D : Dtype A} {E : ExactArith A}.

Local Notation "'Σ' l" := (fold_right add zero l) (at level 10, l at level 9).

(** The slice [P[:, ζ_from, :, :]] of the tensor. *)
Lemma create_P_slice_value (P : ndarray A) (nδ n1 n2 nι zf : nat) :
  shape P = [nδ; n1; n2; nι] -> zf < n1 ->
  exists sl,
    P.[Slice, Int zf, Slice, Slice] = ret sl /\
    shape sl = [nδ; n2; nι] /\
    forall d zt i, elem sl [d; zt; i] = elem P [d; zf; zt; i].
Proof.
  intros Hs Hzf. unfold getitem. rewrite Hs. simpl. in_box. simpl.
  eexists. repeat split.
Qed.

(** The sum of the products over the last three axes. *)
Lemma total_products (pδ pι : nat -> A) (pζ : nat -> A) (nδ n2 nι : nat) :
  Σ (map pδ (seq 0 nδ)) = one ->
  Σ (map pζ (seq 0 n2)) = one ->
  Σ (map pι (seq 0 nι)) = one ->
  Σ (map (fun d =>
       Σ (map (fun zt =>
            Σ (map (fun i => mul (mul (pδ d) (pζ zt)) (pι i)) (seq 0 nι)))
          (seq 0 n2)))
     (seq 0 nδ)) = one.
Proof.
  intros Hδ Hζ Hι.
  transitivity (Σ (map pδ (seq 0 nδ))); [|exact Hδ].
  apply total_ext. intros d _.
  transitivity (mul (pδ d) (Σ (map pζ (seq 0 n2))));
    [|rewrite Hζ; apply mul_one_r].
  rewrite <- total_scale_l. apply total_ext. intros zt _.
  rewrite total_scale_l, Hι. apply mul_one_r.
Qed.

(** C10, amended.  In exact arithmetic, for every [P_δ] and [P_ι] that are
    elementwise nonnegative and sum to 1 and every [P_ζ] that is
    elementwise nonnegative with every row summing to 1, each slice
    [P[:, ζ_from, :, :]] of the output of [create_P] is elementwise
    nonnegative and sums to exactly 1 over the remaining δ, ζ_to and ι
    indices: it is a probability distribution. *)
Theorem create_P_slice_distribution (P_δ P_ζ P_ι : ndarray A)
  (nδ n1 n2 nι : nat) :
  shape P_δ = [nδ] -> shape P_ζ = [n1; n2] -> shape P_ι = [nι] ->
  distribution P_δ -> stochastic P_ζ -> distribution P_ι ->
  forall zf, zf < n1 ->
  exists P sl,
    returns (create_P P_δ P_ζ P_ι) P /\
    returns (P.[Slice, Int zf, Slice, Slice]) sl /\
    distribution sl.
Proof.
  intros Hδ Hζ Hι [Nδ Sδ] Tζ [Nι Sι] zf Hzf.
  destruct (create_P_value _ _ _ Hδ Hζ Hι) as (P & HP & Hs & He).
  destruct (create_P_slice_value _ Hs Hzf) as (sl & Hsl & Hss & Hse).
  exists P, sl. split; [exact HP|]. split; [exact Hsl|]. split.
  - apply nonnegative_intro. rewrite Hss. intros idx Hin.
    apply in_bounds_cons in Hin as (d & idx1 & -> & Hd & Hin).
    apply in_bounds_cons in Hin as (zt & idx2 & -> & Hzt & Hin).
    apply in_bounds_cons in Hin as (i & idx3 & -> & Hi & Hin).
    apply in_bounds_nil in Hin as ->.
    rewrite Hse, He by assumption.
    repeat apply exact_mul_nonneg.
    + apply nonnegative_elem; [exact Nδ|]. rewrite Hδ. simpl. now in_box.
    + apply nonnegative_elem; [exact (proj1 Tζ)|]. rewrite Hζ. simpl.
      now in_box.
    + apply nonnegative_elem; [exact Nι|]. rewrite Hι. simpl. now in_box.
  - unfold sums_to_one. rewrite sum_total. unfold ravel. rewrite Hss.
    rewrite total_indices_cons.
    etransitivity;
      [|exact (@total_products _ _ _ _ _ _ (sums_to_one_vector Hδ Sδ)
                 (stochastic_row Hζ Tζ Hzf) (sums_to_one_vector Hι Sι))].
    apply total_ext. intros d Hd. apply in_seq in Hd.
    rewrite total_indices_cons. apply total_ext. intros zt Hzt.
    apply in_seq in Hzt.
    rewrite total_vector. apply total_ext. intros i Hi. apply in_seq in Hi.
    rewrite Hse. apply He; lia.
Qed.

(** The sum of the products over all four axes. *)
Lemma total_products_rows (pδ pι : nat -> A) (pζ : nat -> nat -> A)
  (nδ n1 n2 nι : nat) :
  Σ (map pδ (seq 0 nδ)) = one ->
  (forall zf, zf < n1 -> Σ (map (pζ zf) (seq 0 n2)) = one) ->
  Σ (map pι (seq 0 nι)) = one ->
  Σ (map (fun d =>
       Σ (map (fun zf =>
            Σ (map (fun zt =>
                 Σ (map (fun i => mul (mul (pδ d) (pζ zf zt)) (pι i))
                        (seq 0 nι)))
               (seq 0 n2)))
          (seq 0 n1)))
     (seq 0 nδ)) = of_nat n1.
Proof.
  intros Hδ Hζ Hι.
  transitivity (mul (Σ (map pδ (seq 0 nδ))) (of_nat n1));
    [|rewrite Hδ; apply (SRmul_1_l exact_semiring)].
  rewrite <- total_scale_r. apply total_ext. intros d _.
  transitivity (mul (pδ d) (Σ (map (fun _ => one) (seq 0 n1))));
    [|now rewrite total_ones, length_seq].
  rewrite <- total_scale_l. apply total_ext. intros zf Hzf.
  apply in_seq in Hzf.
  transitivity (mul (pδ d) (Σ (map (pζ zf) (seq 0 n2))));
    [|rewrite Hζ by lia; reflexivity].
  rewrite <- total_scale_l. apply total_ext. intros zt _.
  rewrite total_scale_l, Hι. apply mul_one_r.
Qed.

(** C4, amended.  In exact arithmetic, for all valid inputs ([P_δ] and
    [P_ι] elementwise nonnegative and summing to 1, [P_ζ] elementwise
    nonnegative with every row summing to 1), the output of [create_P] is
    elementwise nonnegative and the sum of all its entries equals the
    number of rows of [P_ζ]; it is 1 when [P_ζ] has a single row. *)
Theorem create_P_total (P_δ P_ζ P_ι : ndarray A) (nδ n1 n2 nι : nat) :
  shape P_δ = [nδ] -> shape P_ζ = [n1; n2] -> shape P_ι = [nι] ->
  distribution P_δ -> stochastic P_ζ -> distribution P_ι ->
  exists P,
    returns (create_P P_δ P_ζ P_ι) P /\
    nonnegative P /\
    sum P = of_nat n1.
Proof.
  intros Hδ Hζ Hι [Nδ Sδ] Tζ [Nι Sι].
  destruct (create_P_value _ _ _ Hδ Hζ Hι) as (P & HP & Hs & He).
  exists P. split; [exact HP|]. split.
  - apply nonnegative_intro. rewrite Hs. intros idx Hin.
    apply in_bounds_cons in Hin as (d & idx1 & -> & Hd & Hin).
    apply in_bounds_cons in Hin as (zf & idx2 & -> & Hzf & Hin).
    apply in_bounds_cons in Hin as (zt & idx3 & -> & Hzt & Hin).
    apply in_bounds_cons in Hin as (i & idx4 & -> & Hi & Hin).
    apply in_bounds_nil in Hin as ->.
    rewrite He by assumption.
    repeat apply exact_mul_nonneg.
    + apply nonnegative_elem; [exact Nδ|]. rewrite Hδ. simpl. now in_box.
    + apply nonnegative_elem; [exact (proj1 Tζ)|]. rewrite Hζ. simpl.
      now in_box.
    + apply nonnegative_elem; [exact Nι|]. rewrite Hι. simpl. now in_box.
  - rewrite sum_total. unfold ravel. rewrite Hs.
    rewrite total_indices_cons.
    etransitivity;
      [|exact (@total_products_rows _ _ (fun zf zt => elem P_ζ [zf; zt])
                 _ _ _ _ (sums_to_one_vector Hδ Sδ)
                 (fun zf Hzf => stochastic_row Hζ Tζ Hzf)
                 (sums_to_one_vector Hι Sι))].
    apply total_ext. intros d Hd. apply in_seq in Hd.
    rewrite total_indices_cons. apply total_ext. intros zf Hzf.
    apply in_seq in Hzf.
    rewrite total_indices_cons. apply total_ext. intros zt Hzt.
    apply in_seq in Hzt.
    rewrite total_vector. apply total_ext. intros i Hi. apply in_seq in Hi.
    apply He; lia.
Qed.

End CreatePExact.

(** ** Exact and rounded arithmetic *)

(** The rationals compute exactly. *)
#[export] Instance rational_exact : ExactArith Qc.
Proof.
  split.
  - constructor; simpl; intros.
    + apply Qcplus_0_l.
    + apply Qcplus_comm.
    + apply Qcplus_assoc.
    + apply Qcmult_1_l.
    + apply Qcmult_0_l.
    + apply Qcmult_comm.
    + apply Qcmult_assoc.
    + apply Qcmult_plus_distr_l.
  - simpl. intros a b Ha Hb.
    apply Qle_bool_iff. apply Qle_bool_iff in Ha, Hb.
    change (0 <= a * b)%Qc. change (0 <= a)%Qc in Ha. change (0 <= b)%Qc in Hb.
    rewrite <- (Qcmult_0_l b). now apply Qcmult_le_compat_r.
Qed.

(** ** binary64 comparisons *)

Section Float64Facts.

Import Float64.

Open Scope float_scope.

Lemma SFcompare_refl (x : spec_float) :
  x <> S754_nan -> SFcompare x x = Some Eq.
Proof.
  destruct x as [s | s | | s m e]; simpl; intros H.
  - reflexivity.
  - now destruct s.
  - now contradiction H.
  - rewrite Z.compare_refl, Pos.compare_cont_refl. now destruct s.
Qed.

Lemma is_nan_SF (x : float) :
  is_nan x = match Prim2SF x with S754_nan => true | _ => false end.
Proof.
  unfold is_nan. rewrite FloatAxioms.eqb_spec. unfold SFeqb.
  destruct (Prim2SF x) eqn:E; try (rewrite SFcompare_refl by discriminate);
    reflexivity.
Qed.

Lemma is_finite_SF (x : float) :
  is_finite x =
  match Prim2SF x with
  | S754_zero _ | S754_finite _ _ _ => true
  | _ => false
  end.
Proof.
  unfold is_finite. rewrite is_nan_SF. unfold is_infinity.
  rewrite FloatAxioms.eqb_spec, abs_spec.
  change (Prim2SF infinity) with (S754_infinity false).
  destruct (Prim2SF x) as [s | s | | s m e]; reflexivity.
Qed.

Lemma leb_refl (x : float) : is_nan x = false -> (x <=? x) = true.
Proof.
  rewrite is_nan_SF, leb_spec. unfold SFleb. intros H.
  rewrite SFcompare_refl; [reflexivity|].
  intros E. now rewrite E in H.
Qed.

Lemma leb_not_nan (a x : float) : (a <=? x) = true -> is_nan x = false.
Proof.
  rewrite is_nan_SF, leb_spec. unfold SFleb.
  destruct (Prim2SF x); try reflexivity.
  destruct (Prim2SF a); discriminate.
Qed.

(** A float between two finite floats is finite. *)
Lemma between_finite (a x b : float) :
  is_finite a = true -> is_finite b = true ->
  (a <=? x) = true -> (x <=? b) = true -> is_finite x = true.
Proof.
  rewrite !is_finite_SF, !leb_spec. unfold SFleb.
  destruct (Prim2SF x) as [s | s | | s m e]; try reflexivity.
  - destruct s.
    + destruct (Prim2SF a); simpl; try discriminate.
    + destruct (Prim2SF b); simpl; try discriminate.
  - destruct (Prim2SF a); discriminate.
Qed.

Lemma ltb_leb (a x : float) : (a <? x) = true -> (a <=? x) = true.
Proof.
  rewrite ltb_spec, leb_spec. unfold SFltb, SFleb.
  destruct (SFcompare (Prim2SF a) (Prim2SF x)) as [[]|];
    try discriminate; reflexivity.
Qed.

(** The floor holds unless a NaN is involved. *)
Lemma maximum_floor (c min_c : float) :
  isnan c = false -> isnan min_c = false ->
  leb min_c (maximum c min_c) = true.
Proof.
  unfold maximum. simpl. intros Hc Hm. rewrite Hc.
  destruct (min_c <? c) eqn:E; [now apply ltb_leb|now apply leb_refl].
Qed.

Lemma ltb_not_nan (c x : float) : (c <? x) = true -> is_nan c = false.
Proof.
  rewrite is_nan_SF, ltb_spec. unfold SFltb.
  destruct (Prim2SF c); try reflexivity. discriminate.
Qed.

Lemma finite_not_nan (x : float) : is_finite x = true -> is_nan x = false.
Proof.
  rewrite is_nan_SF, is_finite_SF. destruct (Prim2SF x); auto.
Qed.

(** A float at or above a finite float and below infinity is finite. *)
Lemma above_finite (a x : float) :
  is_finite a = true -> (a <=? x) = true -> (x <? infinity) = true ->
  is_finite x = true.
Proof.
  rewrite !is_finite_SF, leb_spec, ltb_spec.
  change (Prim2SF infinity) with (S754_infinity false).
  unfold SFleb, SFltb.
  destruct (Prim2SF x) as [s | s | | s m e]; try reflexivity.
  - destruct s; [|discriminate].
    destruct (Prim2SF a); simpl; discriminate.
  - discriminate.
Qed.

(** Below infinity the floor also keeps the result finite. *)
Lemma maximum_floor_finite (c min_c : float) :
  ltb c infinity = true -> isfinite min_c = true ->
  leb min_c (maximum c min_c) = true /\
  isfinite (maximum c min_c) = true.
Proof.
  unfold maximum. simpl. intros Hc Hm.
  rewrite (ltb_not_nan Hc).
  destruct (min_c <? c) eqn:E.
  - apply ltb_leb in E. split; [exact E|].
    now apply (@above_finite min_c c).
  - split; [|exact Hm]. apply leb_refl. now apply finite_not_nan.
Qed.

(** The capped utility is finite at every input at or above a finite
    floor, infinity included. *)
Lemma capped_finite (min_c x : float) :
  is_finite min_c = true -> (min_c <=? x) = true ->
  is_finite (capped x) = true.
Proof.
  intros Hm Hx. unfold capped, minimum. simpl.
  rewrite (leb_not_nan Hx).
  destruct (x <? 1) eqn:E; [|reflexivity].
  apply ltb_leb in E. now apply (@between_finite min_c x 1).
Qed.

End Float64Facts.

(** ** The utility grid in binary64 *)

Section CreateUcGridFloat.

Open Scope float_scope.

(** C6, amended.  For every utility function [u] that is finite at all
    inputs greater than or equal to [min_c], and every [min_c] that is not
    NaN, the output of [create_uc_grid] is finite at every index where raw
    consumption is not NaN, however negative it is (minus infinity
    included). *)
Theorem create_uc_grid_finite (garbage : list nat -> float)
  (u : float -> float)
  (w_vals ζ_vals ι_vals k_tilde_vals : ndarray float) (wage min_c : float)
  (nw nζ nι nk : nat) :
  shape w_vals = [nw] -> shape ζ_vals = [nζ] -> shape ι_vals = [nι] ->
  shape k_tilde_vals = [nk] ->
  isnan min_c = false ->
  (forall x, leb min_c x = true -> isfinite (u x) = true) ->
  forall uc,
    returns (create_uc_grid garbage u (w_vals, ζ_vals, ι_vals, k_tilde_vals)
                            wage min_c) uc ->
    forall i z w k, i < nι -> z < nζ -> w < nw -> k < nk ->
      isnan (raw_consumption w_vals ζ_vals k_tilde_vals wage i z w k)
        = false ->
      exists y, item uc [i; z; w; k] = ret y /\ isfinite y = true.
Proof.
  intros Hw Hζ Hι Hk Hm Hu uc Huc i z w k Hi Hz Hw' Hk' Hc.
  destruct (@create_uc_grid_value _ _ garbage u _ _ _ _ wage min_c _ _ _ _
              Hw Hζ Hι Hk) as (uc' & Huc' & Hs & He); [lia|].
  unfold returns in Huc. rewrite Huc' in Huc. injection Huc as <-.
  eexists. split.
  - unfold item. rewrite Hs. simpl. in_box. simpl. reflexivity.
  - rewrite He by assumption. apply Hu. now apply maximum_floor.
Qed.

(** The same for a utility that is finite at finite inputs only, as the
    logarithm is: with a finite floor the output is finite wherever raw
    consumption is below infinity. *)
Lemma create_uc_grid_finite_below_infinity (garbage : list nat -> float)
  (u : float -> float)
  (w_vals ζ_vals ι_vals k_tilde_vals : ndarray float) (wage min_c : float)
  (nw nζ nι nk : nat) :
  shape w_vals = [nw] -> shape ζ_vals = [nζ] -> shape ι_vals = [nι] ->
  shape k_tilde_vals = [nk] ->
  isfinite min_c = true ->
  (forall x, leb min_c x = true -> isfinite x = true ->
             isfinite (u x) = true) ->
  forall uc,
    returns (create_uc_grid garbage u (w_vals, ζ_vals, ι_vals, k_tilde_vals)
                            wage min_c) uc ->
    forall i z w k, i < nι -> z < nζ -> w < nw -> k < nk ->
      ltb (raw_consumption w_vals ζ_vals k_tilde_vals wage i z w k) infinity
        = true ->
      exists y, item uc [i; z; w; k] = ret y /\ isfinite y = true.
Proof.
  intros Hw Hζ Hι Hk Hm Hu uc Huc i z w k Hi Hz Hw' Hk' Hc.
  destruct (@create_uc_grid_value _ _ garbage u _ _ _ _ wage min_c _ _ _ _
              Hw Hζ Hι Hk) as (uc' & Huc' & Hs & He); [lia|].
  unfold returns in Huc. rewrite Huc' in Huc. injection Huc as <-.
  eexists. split.
  - unfold item. rewrite Hs. simpl. in_box. simpl. reflexivity.
  - rewrite He by assumption.
    destruct (maximum_floor_finite _ Hc Hm) as [Hle Hfin].
    now apply Hu.
Qed.

End CreateUcGridFloat.

(** ** The helpers on concrete inputs *)

Section Concrete.

Import Float64 Examples.

Open Scope float_scope.

(** C1, the claim as stated fails on a grid without invention states:
    [uc[0, :, :, :]] raises [IndexError] and no array is returned. *)
Lemma create_uc_grid_no_invention_state :
  raises call_without_ι IndexError /\
  ~ exists uc, returns call_without_ι uc.
Proof.
  split; [reflexivity|]. intros [uc H]. discriminate H.
Qed.

(** C4, the claim as stated fails when [P_ζ] has two rows: the inputs are
    valid and the entries of the output sum to 2. *)
Lemma create_P_total_two_rows :
  distribution point_mass /\ stochastic two_rows /\
  exists P,
    returns (create_P point_mass two_rows point_mass) P /\
    sum P = 2 /\ ~ sums_to_one P.
Proof.
  split; [|split].
  - split; [repeat constructor|reflexivity].
  - split; repeat constructor.
  - eexists. split; [reflexivity|]. split; [reflexivity|].
    intros E. apply (f_equal (fun x => PrimFloat.eqb x 1)) in E.
    vm_compute in E. discriminate E.
Qed.

(** C10, the claim as stated fails in binary64: the inputs are nonnegative
    and sum to 1, as floats and as rationals, and the slice of the output
    sums to [1 + 2**-52] as floats and to [1 + 2**-54] as rationals. *)
Lemma create_P_slice_rounded :
  distribution uneven /\ stochastic uneven_row /\ distribution point_mass /\
  (exact_sum uneven == 1)%Q /\ (exact_sum uneven_row == 1)%Q /\
  exists P sl,
    returns (create_P uneven uneven_row point_mass) P /\
    returns (P.[Slice, Int 0, Slice, Slice]) sl /\
    sum sl = 0x1.0000000000001p+0 /\ ~ sums_to_one sl /\
    (exact_sum sl == 1 + inject_Z 1 / inject_Z (2 ^ 54))%Q.
Proof.
  split; [|split; [|split; [|split; [|split]]]].
  - split; [repeat constructor|reflexivity].
  - split; repeat constructor.
  - split; [repeat constructor|reflexivity].
  - vm_compute. reflexivity.
  - vm_compute. reflexivity.
  - do 2 eexists. split; [reflexivity|]. split; [reflexivity|].
    split; [reflexivity|]. split.
    + intros E. apply (f_equal (fun x => PrimFloat.eqb x 1)) in E.
      vm_compute in E. discriminate E.
    + vm_compute. reflexivity.
Qed.

(** C6, the claim as stated fails on finite grids whose consumption
    overflows: the utility is finite at every input at or above the floor,
    and the output at index (0,0,0,0) is NaN. *)
Lemma create_uc_grid_nan :
  (forall x, leb default_min_c x = true -> isfinite (capped x) = true) /\
  isfinite (- huge) = true /\ isfinite huge = true /\
  exists uc y,
    returns call_overflowing uc /\
    item uc [0; 0; 0; 0]%nat = ret y /\
    isnan y = true /\ isfinite y = false.
Proof.
  split; [|split; [|split]].
  - intros x. now apply capped_finite.
  - reflexivity.
  - reflexivity.
  - do 2 eexists. split; [reflexivity|]. split; [reflexivity|].
    split; reflexivity.
Qed.

End Concrete.

(** ** The theorems at work *)

Section Witnesses.

Import Float64 Examples.

Open Scope float_scope.

Lemma below (i n : nat) : Nat.ltb i n = true -> (i < n)%nat.
Proof. apply Nat.ltb_lt. Defined.

(** [create_uc_grid] on the small model with utility [sqrt], wage 2 and
    floor 0.125: labor income is paid at invention index 0 only, and the
    floor binds where wealth is below net investment. *)
Lemma create_uc_grid_entries_witness :
  (shape w_vals = [3] /\ shape ζ_vals = [2] /\ shape ι_vals = [2] /\
   shape k_tilde_vals = [2] /\ 0 < 2)%nat /\
  exists uc,
    returns (create_uc_grid zeroed sqrt
               (w_vals, ζ_vals, ι_vals, k_tilde_vals) 2 0.125) uc /\
    shape uc = [2; 2; 3; 2]%nat /\
    item uc [0; 0; 0; 1]%nat = ret (sqrt 19.5) /\
    item uc [1; 0; 0; 1]%nat = ret (sqrt 0.125).
Proof.
  split; [repeat split; apply below; reflexivity|].
  destruct (@create_uc_grid_entries float float64 zeroed sqrt
              w_vals ζ_vals ι_vals k_tilde_vals 2 0.125 3 2 2 2
              eq_refl eq_refl eq_refl eq_refl (below 0 2 eq_refl))
    as (uc & H & Hs & He).
  exists uc. split; [exact H|]. split; [exact Hs|]. split.
  - exact (He 0 0 0 1 (below 0 2 eq_refl) (below 0 2 eq_refl)
              (below 0 3 eq_refl) (below 1 2 eq_refl))%nat.
  - exact (He 1 0 0 1 (below 1 2 eq_refl) (below 0 2 eq_refl)
              (below 0 3 eq_refl) (below 1 2 eq_refl))%nat.
Defined.

(** [create_next_w] with r = 0.5, R = 4 and Γ_star = 100. *)
Lemma create_next_w_entries_witness :
  (shape δ_vals = [2] /\ shape k_tilde_vals = [2] /\ shape b_vals = [2])%nat /\
  exists next_w next_w_star,
    returns (create_next_w 0.5 δ_vals k_tilde_vals b_vals 4 100)
            (next_w, next_w_star) /\
    item next_w [0; 0; 1]%nat = ret 3.25 /\
    item next_w_star [0; 0; 1]%nat = ret 103.25.
Proof.
  split; [repeat split|].
  destruct (@create_next_w_entries float float64 0.5 4 100
              δ_vals k_tilde_vals b_vals 2 2 2 eq_refl eq_refl eq_refl)
    as (nw & nws & H & _ & _ & He).
  exists nw, nws. split; [exact H|].
  exact (He 0 0 1 (below 0 2 eq_refl) (below 0 2 eq_refl)
            (below 1 2 eq_refl))%nat.
Defined.

(** [create_P] on a two-point [P_δ], a two-row [P_ζ] and a point mass. *)
Lemma create_P_entries_witness :
  (shape (array1 [0.25; 0.75]%float) = [2] /\ shape two_rows = [2; 2] /\
   shape point_mass = [1])%nat /\
  exists P,
    returns (create_P (array1 [0.25; 0.75]) two_rows point_mass) P /\
    shape P = [2; 2; 2; 1]%nat /\
    item P [1; 0; 1; 0]%nat = ret 0.375.
Proof.
  split; [repeat split|].
  destruct (@create_P_entries float float64
              (array1 [0.25; 0.75]) two_rows point_mass 2 2 2 1
              eq_refl eq_refl eq_refl)
    as (P & H & Hs & He).
  exists P. split; [exact H|]. split; [exact Hs|].
  exact (He 1 0 1 0 (below 1 2 eq_refl) (below 0 2 eq_refl)
            (below 1 2 eq_refl) (below 0 1 eq_refl))%nat.
Defined.

Lemma Qc_eq (a b : Qc) : Qeq_bool a b = true -> a = b.
Proof. intros H. apply Qc_is_canon. now apply Qeq_bool_iff. Defined.

Lemma quarters_distribution : distribution quarters.
Proof.
  split; [repeat constructor|]. apply Qc_eq. reflexivity.
Defined.

Lemma certain_distribution : distribution certain.
Proof.
  split; [repeat constructor|]. apply Qc_eq. reflexivity.
Defined.

Lemma mixing_stochastic : stochastic mixing.
Proof.
  split; [repeat constructor|].
  repeat constructor; apply (f_equal (@inr exn Qc)); apply Qc_eq; reflexivity.
Defined.

(** [create_P] over the rationals on a two-point [P_δ], a two-row [P_ζ]
    and a point mass: the entries sum to 2. *)
Lemma create_P_total_witness :
  (shape quarters = [2] /\ shape mixing = [2; 2] /\ shape certain = [1])%nat /\
  distribution quarters /\ stochastic mixing /\ distribution certain /\
  exists P,
    returns (create_P quarters mixing certain) P /\
    nonnegative P /\ sum P = Q2Qc 2.
Proof.
  split; [repeat split|].
  split; [exact quarters_distribution|].
  split; [exact mixing_stochastic|].
  split; [exact certain_distribution|].
  destruct (@create_P_total Qc rational rational_exact
              quarters mixing certain 2 2 2 1 eq_refl eq_refl eq_refl
              quarters_distribution mixing_stochastic certain_distribution)
    as (P & H & Hn & Hs).
  exists P. split; [exact H|]. split; [exact Hn|].
  rewrite Hs. apply Qc_eq. reflexivity.
Defined.

(** The second slice of the same tensor is a distribution. *)
Lemma create_P_slice_distribution_witness :
  (shape quarters = [2] /\ shape mixing = [2; 2] /\ shape certain = [1])%nat /\
  distribution quarters /\ stochastic mixing /\ distribution certain /\
  (1 < 2)%nat /\
  exists P sl,
    returns (create_P quarters mixing certain) P /\
    returns (P.[Slice, Int 1, Slice, Slice]) sl /\
    distribution sl.
Proof.
  split; [repeat split|].
  split; [exact quarters_distribution|].
  split; [exact mixing_stochastic|].
  split; [exact certain_distribution|].
  split; [apply below; reflexivity|].
  exact (@create_P_slice_distribution Qc rational rational_exact
           quarters mixing certain 2 2 2 1 eq_refl eq_refl eq_refl
           quarters_distribution mixing_stochastic certain_distribution
           1%nat (below 1 2 eq_refl)).
Defined.

(** [create_uc_grid] on the small model with the capped utility and the
    default floor: the entry where wealth is below net investment is
    finite. *)
Lemma create_uc_grid_finite_witness :
  (shape w_vals = [3] /\ shape ζ_vals = [2] /\ shape ι_vals = [2] /\
   shape k_tilde_vals = [2])%nat /\
  isnan default_min_c = false /\
  (forall x, leb default_min_c x = true -> isfinite (capped x) = true) /\
  isnan (raw_consumption w_vals ζ_vals k_tilde_vals 2 1 0 0 1) = false /\
  exists uc y,
    returns (create_uc_grid zeroed capped
               (w_vals, ζ_vals, ι_vals, k_tilde_vals) 2 default_min_c) uc /\
    item uc [1; 0; 0; 1]%nat = ret y /\ isfinite y = true.
Proof.
  split; [repeat split|].
  split; [reflexivity|].
  split; [intros x; now apply capped_finite|].
  split; [reflexivity|].
  assert (H : exists uc,
             returns (create_uc_grid zeroed capped
                        (w_vals, ζ_vals, ι_vals, k_tilde_vals)
                        2 default_min_c) uc)
    by (eexists; reflexivity).
  destruct H as [uc H].
  destruct (@create_uc_grid_finite zeroed capped
              w_vals ζ_vals ι_vals k_tilde_vals 2 default_min_c 3 2 2 2
              eq_refl eq_refl eq_refl eq_refl eq_refl
              (fun x => @capped_finite default_min_c x eq_refl)
              uc H 1 0 0 1 (below 1 2 eq_refl) (below 0 2 eq_refl)
              (below 0 3 eq_refl) (below 1 2 eq_refl) eq_refl)%nat
    as (y & Hy & Hf).
  exists uc, y. auto.
Defined.

End Witnesses.

(** ** Construction errors *)

Section ConstructionFacts.

Import KnightianModel.

Context {A : Type} {D : Dtype A}.

Lemma validate_domain (p : parameters A) :
  domain_violation p = true -> In InvalidParameter (validate p).
Proof. unfold validate. intros ->. now left. Qed.

Lemma validate_shape (p : parameters A) :
  shape_violation p = true -> In ShapeMismatch (validate p).
Proof. unfold validate. intros ->. apply in_or_app. right. now left. Qed.

(** Construction with a reported error returns no object. *)
Lemma rejected (p : parameters A) (e : error) :
  In e (validate p) ->
  rejects p e /\ forall h, KIMHouseholds p <> inr h.
Proof.
  unfold rejects, KIMHouseholds. intros H.
  destruct (validate p) as [|e' errors]; [contradiction H|].
  split; [now exists (e' :: errors)|discriminate].
Qed.

(** C7.  Construction raises the invalid-parameter error whenever a
    probability distribution ([P_δ], [P_ζ] or [P_ι]) has a negative entry,
    an entry greater than 1 or a sum that is not 1, and whenever [α], [β]
    or [π] lies outside [[0, 1]]; it returns no object, so no solve can
    start. *)
Theorem construction_rejects_invalid_parameter (p : parameters A) :
  (exists P, In P [P_δ p; P_ζ p; P_ι p] /\
             (has_negative P = true \/ has_above_one P = true \/
              bad_sum P = true)) \/
  (exists x, In x [α p; β p; π p] /\ outside_unit x = true) ->
  rejects p InvalidParameter /\ forall h, KIMHouseholds p <> inr h.
Proof.
  intros H. apply rejected, validate_domain. unfold domain_violation.
  destruct H as [(P & HP & H) | (x & Hx & H)].
  - assert (HI : invalid_distribution P = true).
    { unfold invalid_distribution.
      destruct H as [-> | [-> | ->]]; now rewrite ?orb_true_r. }
    simpl in HP. destruct HP as [<- | [<- | [<- | []]]];
      rewrite HI; now rewrite ?orb_true_r.
  - simpl in Hx. destruct Hx as [<- | [<- | [<- | []]]];
      rewrite H; now rewrite ?orb_true_r.
Qed.

(** C8.  Construction raises the shape-mismatch error whenever the size of
    [P_δ] is not the size of [δ_vals], or the shape of [P_ζ] is not
    |ζ_vals| × |ζ_vals|, whatever the entries of [P_ζ] sum to. *)
Theorem construction_rejects_shape_mismatch (p : parameters A) :
  size (P_δ p) <> size (δ_vals p) \/
  shape (P_ζ p) <> [size (ζ_vals p); size (ζ_vals p)] ->
  rejects p ShapeMismatch /\ forall h, KIMHouseholds p <> inr h.
Proof.
  intros H. apply rejected, validate_shape. unfold shape_violation.
  destruct H as [H | H].
  - unfold vector_mismatch. apply Nat.eqb_neq in H. now rewrite H.
  - unfold matrix_mismatch.
    destruct (list_eq_dec Nat.eq_dec (shape (P_ζ p))
                [size (ζ_vals p); size (ζ_vals p)]) as [E | _];
      [contradiction|].
    simpl. now rewrite ?orb_true_r.
Qed.

End ConstructionFacts.

Section ConstructionTests.

Import KnightianModel.

Open Scope float_scope.

(** A valid household is constructed. *)
Example valid_constructed :
  KIMHouseholds Examples.valid = inr (Households Examples.valid).
Proof. reflexivity. Qed.

(** test_P_δ_invalid: [P_δ = [-0.5, 0.5]] has a negative entry. *)
Lemma construction_rejects_invalid_parameter_witness :
  has_negative (P_δ (Examples.with_P_δ Examples.P_δ_neg)) = true /\
  rejects (Examples.with_P_δ Examples.P_δ_neg) InvalidParameter /\
  forall h, KIMHouseholds (Examples.with_P_δ Examples.P_δ_neg) <> inr h.
Proof.
  split; [reflexivity|].
  apply (construction_rejects_invalid_parameter
           (Examples.with_P_δ Examples.P_δ_neg)).
  left. exists Examples.P_δ_neg. split; [now left|]. left. reflexivity.
Defined.

(** test_shapes_invalid: a [P_ζ] of shape 2 × 3 over three productivity
    states, every row of which sums to 1. *)
Lemma construction_rejects_shape_mismatch_witness :
  shape (P_ζ Examples.wide_P_ζ) <>
    [size (ζ_vals Examples.wide_P_ζ); size (ζ_vals Examples.wide_P_ζ)] /\
  bad_sum (P_ζ Examples.wide_P_ζ) = false /\
  rejects Examples.wide_P_ζ ShapeMismatch /\
  forall h, KIMHouseholds Examples.wide_P_ζ <> inr h.
Proof.
  assert (H : shape (P_ζ Examples.wide_P_ζ) <>
              [size (ζ_vals Examples.wide_P_ζ);
               size (ζ_vals Examples.wide_P_ζ)])
    by (intros E; discriminate E).
  split; [exact H|]. split; [reflexivity|].
  exact (construction_rejects_shape_mismatch Examples.wide_P_ζ
           (or_intror H)).
Defined.

(** The other inputs of the tests. *)
Example P_δ_1_rejected :
  has_above_one Examples.P_δ_1 = true /\
  rejects (Examples.with_P_δ Examples.P_δ_1) InvalidParameter.
Proof.
  split; [reflexivity|]. eexists. split; [reflexivity|]. now left.
Qed.

Example P_δ_sum_rejected :
  bad_sum Examples.P_δ_sum = true /\
  rejects (Examples.with_P_δ Examples.P_δ_sum) InvalidParameter.
Proof.
  split; [reflexivity|]. eexists. split; [reflexivity|]. now left.
Qed.

Example long_δ_rejected :
  domain_violation Examples.long_δ = false /\
  rejects Examples.long_δ ShapeMismatch.
Proof.
  split; [reflexivity|]. eexists. split; [reflexivity|]. now left.
Qed.

#[warnings="-inexact-float"] Example α_rejected :
  rejects (Examples.with_α 1.1) InvalidParameter.
Proof. eexists. split; [reflexivity|]. now left. Qed.

End ConstructionTests.

(** * Further properties of the helpers *)

(** ** The utility grid: errors, shape and uninitialised memory *)

Section CreateUcGridEdges.

Context {A : Type} {D : Dtype A}.

Lemma bind_returns {T U : Type} (m : result T) (k : T -> result U) (y : U) :
  bind m k = ret y -> exists x, m = ret x /\ k x = ret y.
Proof. destruct m as [e | x]; simpl; [discriminate|eauto]. Qed.

Lemma broadcast_rev_nil_r (r : list nat) : broadcast_rev r [] = ret r.
Proof. destruct r; reflexivity. Qed.

Lemma broadcast_shapes_scalar (shp : list nat) :
  broadcast_shapes shp [] = ret shp.
Proof.
  unfold broadcast_shapes. simpl rev at 2. rewrite broadcast_rev_nil_r.
  simpl. now rewrite rev_involutive.
Qed.

Lemma setitem_shape (a v a' : ndarray A) (spec : list index) :
  setitem a spec v = ret a' -> shape a' = shape a.
Proof.
  unfold setitem. intros H.
  apply bind_returns in H as ([s f] & _ & H).
  apply bind_returns in H as (v' & _ & H).
  now injection H as <-.
Qed.

Lemma iop_shape (op : A -> A -> A) (a a' : ndarray A) (spec : list index)
  (v : result (ndarray A)) :
  iop op a spec v = ret a' -> shape a' = shape a.
Proof.
  unfold iop. intros H.
  apply bind_returns in H as (t & _ & H).
  apply bind_returns in H as (v0 & _ & H).
  apply bind_returns in H as (v' & _ & H).
  apply bind_returns in H as (r & _ & H).
  now apply setitem_shape in H.
Qed.

Lemma ufunc2_scalar_shape (op : A -> A -> A) (a a' : ndarray A) (c : A) :
  ufunc2 op a (scalar c) = ret a' -> shape a' = shape a.
Proof.
  unfold ufunc2. simpl shape at 2. rewrite broadcast_shapes_scalar. simpl.
  intros H.
  apply bind_returns in H as (x & _ & H).
  now injection H as <-.
Qed.

(** An array [create_uc_grid] returns has the shape of the array it
    allocated. *)
Lemma create_uc_grid_shape (garbage : list nat -> A) (u : A -> A)
  (w_vals ζ_vals ι_vals k_tilde_vals : ndarray A) (wage min_c : A)
  (uc : ndarray A) :
  returns (create_uc_grid garbage u (w_vals, ζ_vals, ι_vals, k_tilde_vals)
                          wage min_c) uc ->
  shape uc = [size ι_vals; size ζ_vals; size w_vals; size k_tilde_vals].
Proof.
  unfold returns, create_uc_grid. intros H.
  apply bind_returns in H as (w4 & _ & H).
  apply bind_returns in H as (k4 & _ & H).
  apply bind_returns in H as (c & _ & H).
  apply bind_returns in H as (uc1 & H1 & H).
  apply bind_returns in H as (uc2 & H2 & H).
  apply bind_returns in H as (uc3 & H3 & H).
  injection H as <-. simpl.
  apply ufunc2_scalar_shape in H3. apply iop_shape in H2.
  apply setitem_shape in H1. simpl in H1. congruence.
Qed.

(** X1.  The utility grid fits the arrays of the solver: it has the shape of
    the action values [k_tilde_av], and the value function [V1_star] has
    that shape without the axis of the net-investment choice. This holds for
    one-dimensional [w_vals] and [k_tilde_vals] and for [ζ_vals], [ι_vals]
    and [b_vals] of any dimension. *)
Theorem create_uc_grid_fits_k_tilde_av (garbage : list nat -> A) (u : A -> A)
  (w_vals ζ_vals ι_vals k_tilde_vals b_vals : ndarray A) (wage min_c : A)
  (nw nk : nat) (uc : ndarray A) :
  shape w_vals = [nw] -> shape k_tilde_vals = [nk] ->
  returns (create_uc_grid garbage u (w_vals, ζ_vals, ι_vals, k_tilde_vals)
                          wage min_c) uc ->
  let '(V1_star, _, _, _, _, k_tilde_av) :=
    initialize_values_and_policies
      (w_vals, ζ_vals, ι_vals, k_tilde_vals) b_vals in
  shape uc = shape k_tilde_av /\ shape V1_star = removelast (shape uc).
Proof.
  intros _ _ H. apply create_uc_grid_shape in H. rewrite H.
  split; reflexivity.
Qed.

(** X2.  Without invention states the call raises [IndexError], whatever the
    productivity grid is: [uc[0, :, :, :]] is read before the labor income
    is computed. *)
Theorem create_uc_grid_without_invention_states (garbage : list nat -> A) (u : A -> A)
  (w_vals ζ_vals ι_vals k_tilde_vals : ndarray A) (wage min_c : A)
  (nw nk : nat) :
  shape w_vals = [nw] -> shape k_tilde_vals = [nk] -> size ι_vals = 0 ->
  raises (create_uc_grid garbage u (w_vals, ζ_vals, ι_vals, k_tilde_vals)
                         wage min_c) IndexError.
Proof.
  intros Hw Hk Hι.
  unfold raises, create_uc_grid, iop, getitem, setitem.
  rewrite (size_vector _ Hw), (size_vector _ Hk), Hι, Hw, Hk. simpl.
  repeat ufunc. reflexivity.
Qed.

Lemma same_outcome_bind {T : Type} (m : result T)
  (k1 k2 : T -> result (ndarray A)) :
  (forall x, same_outcome (k1 x) (k2 x)) ->
  same_outcome (bind m k1) (bind m k2).
Proof. intros H. destruct m as [e | x]; simpl; [reflexivity|apply H]. Qed.

(** X3.  The result never depends on what [np.empty] found in memory: two
    calls that differ only in that raise the same exception or return the
    same array. This holds for one-dimensional [w_vals] and [k_tilde_vals]
    and for [ζ_vals] and [ι_vals] of any dimension. *)
Theorem create_uc_grid_ignores_garbage (garbage1 garbage2 : list nat -> A)
  (u : A -> A) (w_vals ζ_vals ι_vals k_tilde_vals : ndarray A)
  (wage min_c : A) (nw nk : nat) :
  shape w_vals = [nw] -> shape k_tilde_vals = [nk] ->
  same_outcome
    (create_uc_grid garbage1 u (w_vals, ζ_vals, ι_vals, k_tilde_vals)
                    wage min_c)
    (create_uc_grid garbage2 u (w_vals, ζ_vals, ι_vals, k_tilde_vals)
                    wage min_c).
Proof.
  intros _ _.
  unfold create_uc_grid.
  generalize (size ι_vals) (size ζ_vals) (size w_vals) (size k_tilde_vals).
  intros n0 n1 n2 n3.
  apply same_outcome_bind; intros w4.
  apply same_outcome_bind; intros k4.
  apply same_outcome_bind; intros c.
  remember (ζ3 <- ζ_vals.[Slice, NewAxis, NewAxis] ;;
            ufunc2 mul ζ3 (scalar wage)) as labor eqn:El. clear El.
  unfold setitem, iop, getitem, empty. simpl.
  destruct (broadcast_to c [n0; n1; n2; n3]) as [e | c']; simpl;
    [reflexivity|].
  destruct n0 as [|n0]; simpl; [reflexivity|].
  destruct labor as [e | rhs]; simpl; [reflexivity|].
  destruct (broadcastable_rev (rev (shape rhs)) (rev [n1; n2; n3])) eqn:Eb.
  - rewrite (broadcast_to_ok _ _ Eb). simpl. repeat ufunc.
    unfold setitem. simpl. repeat ufunc.
    unfold same_outcome, same_contents.
    split; [reflexivity|]. intros idx Hin.
    change (in_bounds [S n0; n1; n2; n3] idx = true) in Hin.
    apply in_bounds_cons in Hin as (i & idx1 & -> & Hi & Hin).
    apply in_bounds_cons in Hin as (z & idx2 & -> & Hz & Hin).
    apply in_bounds_cons in Hin as (w & idx3 & -> & Hw & Hin).
    apply in_bounds_cons in Hin as (k & idx4 & -> & Hk & Hin).
    apply in_bounds_nil in Hin as ->.
    unfold bidx. simpl. in_box. destruct i; reflexivity.
  - unfold broadcast_to. rewrite Eb. reflexivity.
Qed.

End CreateUcGridEdges.

(** ** The utility grid: where the floor binds *)

Section CreateUcGridFloor.

Context {A : Type} {D : Dtype A}.

(** The entries of a returned grid, read with [item]. *)
Lemma create_uc_grid_item (garbage : list nat -> A) (u : A -> A)
  (w_vals ζ_vals ι_vals k_tilde_vals : ndarray A) (wage min_c : A)
  (nw nζ nι nk : nat) (uc : ndarray A) :
  shape w_vals = [nw] -> shape ζ_vals = [nζ] -> shape ι_vals = [nι] ->
  shape k_tilde_vals = [nk] ->
  returns (create_uc_grid garbage u (w_vals, ζ_vals, ι_vals, k_tilde_vals)
                          wage min_c) uc ->
  forall i z w k, i < nι -> z < nζ -> w < nw -> k < nk ->
    item uc [i; z; w; k] =
    ret (u (maximum (raw_consumption w_vals ζ_vals k_tilde_vals wage i z w k)
                    min_c)).
Proof.
  intros Hw Hζ Hι Hk Huc i z w k Hi Hz Hw' Hk'.
  destruct (@create_uc_grid_value _ _ garbage u _ _ _ _ wage min_c _ _ _ _
              Hw Hζ Hι Hk) as (uc' & Huc' & Hs & He); [lia|].
  unfold returns in Huc. rewrite Huc' in Huc. injection Huc as <-.
  unfold item. rewrite Hs. simpl. in_box. simpl. now rewrite He.
Qed.

(** X4.  Where raw consumption is strictly above the floor, the floor
    changes nothing: the entry is the utility of raw consumption itself. *)
Theorem create_uc_grid_above_floor (garbage : list nat -> A) (u : A -> A)
  (w_vals ζ_vals ι_vals k_tilde_vals : ndarray A) (wage min_c : A)
  (nw nζ nι nk : nat) (uc : ndarray A) :
  shape w_vals = [nw] -> shape ζ_vals = [nζ] -> shape ι_vals = [nι] ->
  shape k_tilde_vals = [nk] ->
  returns (create_uc_grid garbage u (w_vals, ζ_vals, ι_vals, k_tilde_vals)
                          wage min_c) uc ->
  forall i z w k, i < nι -> z < nζ -> w < nw -> k < nk ->
    ltb min_c (raw_consumption w_vals ζ_vals k_tilde_vals wage i z w k)
      = true ->
    item uc [i; z; w; k] =
    ret (u (raw_consumption w_vals ζ_vals k_tilde_vals wage i z w k)).
Proof.
  intros Hw Hζ Hι Hk Huc i z w k Hi Hz Hw' Hk' Hc.
  rewrite (@create_uc_grid_item garbage u _ _ _ _ wage min_c _ _ _ _ uc
             Hw Hζ Hι Hk Huc) by assumption.
  unfold maximum. rewrite Hc.
  now destruct (isnan (raw_consumption w_vals ζ_vals k_tilde_vals wage
                         i z w k)).
Qed.

(** X5.  In the branches of invention index 1 and above the entry depends
    neither on the productivity state nor on the productivity grid or the
    wage: labor income enters the branch of index 0 only. *)
Theorem create_uc_grid_branches_without_labor (garbage : list nat -> A)
  (u : A -> A) (w_vals ζ_vals ζ_vals' ι_vals k_tilde_vals : ndarray A)
  (wage wage' min_c : A) (nw nζ nι nk : nat) (uc uc' : ndarray A) :
  shape w_vals = [nw] -> shape ζ_vals = [nζ] -> shape ζ_vals' = [nζ] ->
  shape ι_vals = [nι] -> shape k_tilde_vals = [nk] ->
  returns (create_uc_grid garbage u (w_vals, ζ_vals, ι_vals, k_tilde_vals)
                          wage min_c) uc ->
  returns (create_uc_grid garbage u (w_vals, ζ_vals', ι_vals, k_tilde_vals)
                          wage' min_c) uc' ->
  forall i i' z z' w k,
    0 < i < nι -> 0 < i' < nι -> z < nζ -> z' < nζ -> w < nw -> k < nk ->
    item uc [i; z; w; k] = item uc' [i'; z'; w; k] /\
    item uc [i; z; w; k] =
    ret (u (maximum (sub (elem w_vals [w]) (elem k_tilde_vals [k])) min_c)).
Proof.
  intros Hw Hζ Hζ' Hι Hk Huc Huc' i i' z z' w k Hi Hi' Hz Hz' Hw' Hk'.
  rewrite (@create_uc_grid_item garbage u _ _ _ _ wage min_c _ _ _ _ uc
             Hw Hζ Hι Hk Huc) by lia.
  rewrite (@create_uc_grid_item garbage u _ _ _ _ wage' min_c _ _ _ _ uc'
             Hw Hζ' Hι Hk Huc') by lia.
  unfold raw_consumption.
  destruct i as [|i]; [lia|]. destruct i' as [|i']; [lia|].
  split; reflexivity.
Qed.

End CreateUcGridFloor.

Section CreateUcGridFloat64.

Open Scope float_scope.

Lemma SFcompare_swap (x y : spec_float) :
  SFcompare y x = option_map CompOpp (SFcompare x y).
Proof.
  destruct x as [sx | sx | | sx mx ex]; destruct y as [sy | sy | | sy my ey];
    simpl; try reflexivity;
    try (destruct sx; reflexivity); try (destruct sy; reflexivity);
    try (destruct sx, sy; reflexivity).
  destruct sx, sy; simpl; try reflexivity;
    rewrite (Z.compare_antisym ex ey);
    destruct (ex ?= ey)%Z; simpl; try reflexivity;
    change (PosDef.Pos.compare_cont Eq my mx)
      with (Pos.compare_cont (CompOpp Eq) my mx);
    rewrite <- Pos.compare_cont_antisym;
    now rewrite ?CompOpp_involutive.
Qed.

(** Strictly below means not strictly above, and not NaN. *)
Lemma ltb_floor (c min_c : float) :
  (c <? min_c) = true -> (min_c <? c) = false /\ is_nan c = false.
Proof.
  rewrite is_nan_SF, !ltb_spec. unfold SFltb.
  rewrite (SFcompare_swap (Prim2SF c) (Prim2SF min_c)).
  destruct (SFcompare (Prim2SF c) (Prim2SF min_c)) as [[]|] eqn:E;
    try discriminate.
  intros _. split; [reflexivity|].
  destruct (Prim2SF c); try reflexivity. discriminate E.
Qed.

(** X7.  In binary64, where raw consumption is below the floor, minus
    infinity included, the entry is the utility of the floor itself. *)
Theorem create_uc_grid_below_floor (garbage : list nat -> float)
  (u : float -> float)
  (w_vals ζ_vals ι_vals k_tilde_vals : ndarray float) (wage min_c : float)
  (nw nζ nι nk : nat) (uc : ndarray float) :
  shape w_vals = [nw] -> shape ζ_vals = [nζ] -> shape ι_vals = [nι] ->
  shape k_tilde_vals = [nk] ->
  returns (create_uc_grid garbage u (w_vals, ζ_vals, ι_vals, k_tilde_vals)
                          wage min_c) uc ->
  forall i z w k, (i < nι)%nat -> (z < nζ)%nat -> (w < nw)%nat ->
                  (k < nk)%nat ->
    ltb (raw_consumption w_vals ζ_vals k_tilde_vals wage i z w k) min_c
      = true ->
    item uc [i; z; w; k] = ret (u min_c).
Proof.
  intros Hw Hζ Hι Hk Huc i z w k Hi Hz Hw' Hk' Hc.
  rewrite (@create_uc_grid_item _ _ garbage u _ _ _ _ wage min_c _ _ _ _ uc
             Hw Hζ Hι Hk Huc) by assumption.
  destruct (ltb_floor Hc) as [Hlt Hnan].
  unfold maximum. simpl. now rewrite Hlt, Hnan.
Qed.

(** The order of binary64 on the values that are not NaN. *)
Lemma leb_not_nan_l (a x : float) : (a <=? x) = true -> is_nan a = false.
Proof.
  rewrite is_nan_SF, leb_spec. unfold SFleb.
  destruct (Prim2SF a); try reflexivity. discriminate.
Qed.

Lemma SFleb_trans (x y z : spec_float) :
  SFleb x y = true -> SFleb y z = true -> SFleb x z = true.
Proof.
  unfold SFleb.
  destruct x as [sx | sx | | sx mx ex]; destruct y as [sy | sy | | sy my ey];
    destruct z as [sz | sz | | sz mz ez]; simpl; try discriminate;
    try reflexivity;
    try (destruct sx; simpl; try discriminate; try reflexivity);
    try (destruct sy; simpl; try discriminate; try reflexivity);
    try (destruct sz; simpl; try discriminate; try reflexivity).
  all: destruct (Z.compare_spec ex ey), (Z.compare_spec ey ez),
         (Z.compare_spec ex ez); subst; simpl;
       try discriminate; try reflexivity; try lia.
  all: change (PosDef.Pos.compare_cont Eq) with Pos.compare;
       destruct (Pos.compare_spec mx my), (Pos.compare_spec my mz),
         (Pos.compare_spec mx mz); subst; simpl;
       try discriminate; try reflexivity; try lia.
Qed.

Lemma leb_trans (a b c : float) :
  (a <=? b) = true -> (b <=? c) = true -> (a <=? c) = true.
Proof. rewrite !leb_spec. apply SFleb_trans. Qed.

Lemma not_ltb_leb (a b : float) :
  is_nan a = false -> is_nan b = false -> (a <? b) = false ->
  (b <=? a) = true.
Proof.
  rewrite !is_nan_SF, ltb_spec, leb_spec. unfold SFltb, SFleb.
  rewrite (SFcompare_swap (Prim2SF a) (Prim2SF b)).
  destruct (Prim2SF a) as [sa | sa | | sa ma ea];
    destruct (Prim2SF b) as [sb | sb | | sb mb eb];
    try discriminate; intros _ _;
    match goal with
    | |- context [SFcompare ?x ?y] =>
        destruct (SFcompare x y) as [[]|] eqn:E
    end; simpl; try discriminate; try reflexivity; discriminate E.
Qed.

(** The floor preserves the order. *)
Lemma maximum_monotone (a b min_c : float) :
  is_nan min_c = false -> (a <=? b) = true ->
  (maximum a min_c <=? maximum b min_c) = true.
Proof.
  intros Hm H. unfold maximum. simpl.
  rewrite (leb_not_nan_l H), (leb_not_nan H).
  destruct (min_c <? a) eqn:Ea, (min_c <? b) eqn:Eb.
  - exact H.
  - apply (leb_trans H).
    now apply not_ltb_leb; [|apply (leb_not_nan H)|].
  - now apply ltb_leb.
  - now apply leb_refl.
Qed.

(** X6.  In binary64, for a floor that is not NaN and a utility that is
    nondecreasing from the floor on, the entries are ordered as raw
    consumption is: where raw consumption at one grid point is at most
    raw consumption at another, which excludes a NaN at either, the entry
    at the first is at most the entry at the second. *)
Theorem create_uc_grid_monotone (garbage : list nat -> float)
  (u : float -> float)
  (w_vals ζ_vals ι_vals k_tilde_vals : ndarray float) (wage min_c : float)
  (nw nζ nι nk : nat) (uc : ndarray float) :
  shape w_vals = [nw] -> shape ζ_vals = [nζ] -> shape ι_vals = [nι] ->
  shape k_tilde_vals = [nk] ->
  is_nan min_c = false -> nondecreasing_from min_c u ->
  returns (create_uc_grid garbage u (w_vals, ζ_vals, ι_vals, k_tilde_vals)
                          wage min_c) uc ->
  forall i z w k i' z' w' k',
    (i < nι)%nat -> (z < nζ)%nat -> (w < nw)%nat -> (k < nk)%nat ->
    (i' < nι)%nat -> (z' < nζ)%nat -> (w' < nw)%nat -> (k' < nk)%nat ->
    leb (raw_consumption w_vals ζ_vals k_tilde_vals wage i z w k)
        (raw_consumption w_vals ζ_vals k_tilde_vals wage i' z' w' k')
      = true ->
    exists y y',
      item uc [i; z; w; k] = ret y /\ item uc [i'; z'; w'; k'] = ret y' /\
      leb y y' = true.
Proof.
  intros Hw Hζ Hι Hk Hm Hu Huc i z w k i' z' w' k'
         Hi Hz Hw1 Hk1 Hi' Hz' Hw2 Hk2 Hle.
  do 2 eexists.
  split; [apply (@create_uc_grid_item _ _ garbage u _ _ _ _ wage min_c
                   _ _ _ _ uc Hw Hζ Hι Hk Huc); assumption|].
  split; [apply (@create_uc_grid_item _ _ garbage u _ _ _ _ wage min_c
                   _ _ _ _ uc Hw Hζ Hι Hk Huc); assumption|].
  apply Hu.
  - apply maximum_floor; [exact (leb_not_nan_l Hle)|exact Hm].
  - now apply maximum_monotone.
Qed.

End CreateUcGridFloat64.

(** The rationals subtract exactly. *)
#[export] Instance rational_sub : ExactSub Qc.
Proof. split. intros a b. simpl. ring. Qed.


(** ** The joint transition tensor: errors and marginals *)

Section CreatePEdges.

Context {A : Type} {D : Dtype A}.

(** X8.  [P_ζ[None, :, :, None]] needs two axes: on a [P_ζ] with one axis,
    as the docstring of [create_P] describes it, or with none, [create_P]
    raises [IndexError], whatever [P_δ] and [P_ι] are. *)
Theorem create_P_needs_matrix (P_δ P_ζ P_ι : ndarray A) :
  ndim P_ζ <= 1 -> raises (create_P P_δ P_ζ P_ι) IndexError.
Proof.
  intros H. unfold raises, create_P, getitem.
  destruct (shape P_δ) as [|nδ sδ]; [reflexivity|]. simpl.
  unfold ndim in H.
  destruct (shape P_ζ) as [|n1 [|n2 sζ]]; simpl in *;
    [reflexivity|reflexivity|lia].
Qed.

End CreatePEdges.

Section CreatePMarginals.

Context {A : Type} {D : Dtype A} {E : ExactArith A}.

Local Notation "'Σ' l" := (fold_right add zero l) (at level 10, l at level 9).

Lemma mul_one_l (a : A) : mul one a = a.
Proof. apply (SRmul_1_l exact_semiring). Qed.

(** The sum of a matrix as a double sum over ranges. *)
Lemma sum_matrix (a : ndarray A) (n m : nat) :
  shape a = [n; m] ->
  sum a = Σ (map (fun i => Σ (map (fun j => elem a [i; j]) (seq 0 m)))
                 (seq 0 n)).
Proof.
  intros Hs. rewrite sum_total. unfold ravel. rewrite Hs.
  rewrite total_indices_cons. apply total_ext. intros i _.
  now rewrite total_vector.
Qed.

(** X9.  In exact arithmetic, summing the tensor over δ and ι gives back the
    transition matrix of ζ: [P[:, ζ_from, ζ_to, :].sum()] is [P_ζ[ζ_from,
    ζ_to]] whenever [P_δ] and [P_ι] sum to 1, for any matrix [P_ζ]. *)
Theorem create_P_marginal_transition (P_δ P_ζ P_ι : ndarray A) (nδ n1 n2 nι : nat) :
  shape P_δ = [nδ] -> shape P_ζ = [n1; n2] -> shape P_ι = [nι] ->
  sums_to_one P_δ -> sums_to_one P_ι ->
  forall zf zt, zf < n1 -> zt < n2 ->
  exists P sl,
    returns (create_P P_δ P_ζ P_ι) P /\
    returns (P.[Slice, Int zf, Int zt, Slice]) sl /\
    sum sl = elem P_ζ [zf; zt].
Proof.
  intros Hδ Hζ Hι Sδ Sι zf zt Hzf Hzt.
  destruct (create_P_value _ _ _ Hδ Hζ Hι) as (P & HP & Hs & He).
  exists P. unfold returns, getitem. rewrite Hs. simpl. in_box. simpl.
  eexists. split; [exact HP|]. split; [reflexivity|].
  rewrite (@sum_matrix _ nδ nι) by reflexivity. simpl.
  transitivity (mul (Σ (map (fun d => elem P_δ [d]) (seq 0 nδ)))
                    (elem P_ζ [zf; zt]));
    [|rewrite (sums_to_one_vector Hδ Sδ); apply mul_one_l].
  rewrite <- total_scale_r. apply total_ext. intros d Hd.
  apply in_seq in Hd.
  transitivity (mul (mul (elem P_δ [d]) (elem P_ζ [zf; zt]))
                    (Σ (map (fun i => elem P_ι [i]) (seq 0 nι))));
    [|rewrite (sums_to_one_vector Hι Sι); apply mul_one_r].
  rewrite <- total_scale_l. apply total_ext. intros i Hi.
  apply in_seq in Hi. apply He; lia.
Qed.

(** X10.  In exact arithmetic, for a [P_ζ] whose rows sum to 1, summing the
    tensor over ζ_to and ι gives back [P_δ], and summing it over δ and ζ_to
    gives back [P_ι], from every ζ_from: [P[δ, ζ_from, :, :].sum()] is
    [P_δ[δ]] when [P_ι] sums to 1 and [P[:, ζ_from, :, ι].sum()] is [P_ι[ι]]
    when [P_δ] sums to 1. *)
Theorem create_P_marginals_inputs (P_δ P_ζ P_ι : ndarray A)
  (nδ n1 n2 nι : nat) :
  shape P_δ = [nδ] -> shape P_ζ = [n1; n2] -> shape P_ι = [nι] ->
  stochastic P_ζ ->
  forall d zf i, d < nδ -> zf < n1 -> i < nι ->
  exists P sδ sι,
    returns (create_P P_δ P_ζ P_ι) P /\
    returns (P.[Int d, Int zf, Slice, Slice]) sδ /\
    returns (P.[Slice, Int zf, Slice, Int i]) sι /\
    (sums_to_one P_ι -> sum sδ = elem P_δ [d]) /\
    (sums_to_one P_δ -> sum sι = elem P_ι [i]).
Proof.
  intros Hδ Hζ Hι Tζ d zf i Hd Hzf Hi.
  destruct (create_P_value _ _ _ Hδ Hζ Hι) as (P & HP & Hs & He).
  exists P. unfold returns, getitem. rewrite Hs. simpl. in_box. simpl.
  do 2 eexists. split; [exact HP|]. do 2 (split; [reflexivity|]).
  pose proof (stochastic_row Hζ Tζ Hzf) as Sζ.
  split; intros S.
  - rewrite (@sum_matrix _ n2 nι) by reflexivity. simpl.
    transitivity (mul (elem P_δ [d])
                      (Σ (map (fun zt => elem P_ζ [zf; zt]) (seq 0 n2))));
      [|rewrite Sζ; apply mul_one_r].
    rewrite <- total_scale_l. apply total_ext. intros zt Hzt.
    apply in_seq in Hzt.
    transitivity (mul (mul (elem P_δ [d]) (elem P_ζ [zf; zt]))
                      (Σ (map (fun i => elem P_ι [i]) (seq 0 nι))));
      [|rewrite (sums_to_one_vector Hι S); apply mul_one_r].
    rewrite <- total_scale_l. apply total_ext. intros j Hj.
    apply in_seq in Hj. apply He; lia.
  - rewrite (@sum_matrix _ nδ n2) by reflexivity. simpl.
    transitivity (mul (Σ (map (fun d => elem P_δ [d]) (seq 0 nδ)))
                      (elem P_ι [i]));
      [|rewrite (sums_to_one_vector Hδ S); apply mul_one_l].
    rewrite <- total_scale_r. apply total_ext. intros d' Hd'.
    apply in_seq in Hd'.
    transitivity (mul (mul (elem P_δ [d'])
                        (Σ (map (fun zt => elem P_ζ [zf; zt]) (seq 0 n2))))
                      (elem P_ι [i]));
      [|rewrite Sζ, mul_one_r; reflexivity].
    rewrite <- total_scale_l, <- total_scale_r. apply total_ext.
    intros zt Hzt. apply in_seq in Hzt. apply He; lia.
Qed.

End CreatePMarginals.

(** ** Next-period wealth: portfolios and empty grids *)

Section CreateNextWEdges.

Context {A : Type} {D : Dtype A}.

(** What [create_next_w] returns on three vectors. *)
Lemma create_next_w_value (r R Γ_star : A)
  (δ_vals k_tilde_vals b_vals : ndarray A) (nδ nk nb : nat) :
  shape δ_vals = [nδ] -> shape k_tilde_vals = [nk] -> shape b_vals = [nb] ->
  exists next_w next_w_star,
    create_next_w r δ_vals k_tilde_vals b_vals R Γ_star =
      ret (next_w, next_w_star) /\
    shape next_w = [nδ; nk; nb] /\
    shape next_w_star = [nδ; nk; nb] /\
    forall d k b, d < nδ -> k < nk -> b < nb ->
      elem next_w [d; k; b] =
        add (mul (mul (add one r) (elem δ_vals [d])) (elem k_tilde_vals [k]))
            (mul (sub R (mul (add one r) (elem δ_vals [d])))
                 (elem b_vals [b])) /\
      elem next_w_star [d; k; b] = add (elem next_w [d; k; b]) Γ_star.
Proof.
  intros Hδ Hk Hb.
  unfold create_next_w, getitem. rewrite Hδ, Hk, Hb. simpl.
  repeat ufunc.
  do 2 eexists. split; [reflexivity|]. split; [reflexivity|].
  split; [reflexivity|].
  intros d k b Hd Hk' Hb'. unfold bidx. simpl. in_box. simpl.
  split; reflexivity.
Qed.

(** A box with an axis of length 0 has no multi-index. *)
Lemma indices_empty (shp : list nat) : In 0 shp -> indices shp = [].
Proof.
  induction shp as [|n shp IH]; simpl; [tauto|].
  intros [-> | H]; [reflexivity|].
  rewrite (IH H). induction (seq 0 n); simpl; auto.
Qed.

(** X11.  An empty grid is no error for [create_next_w]: when [δ_vals],
    [k_tilde_vals] or [b_vals] has no element it returns two arrays of shape
    (|δ|,|k_tilde|,|b|) that have no element. *)
Theorem create_next_w_empty_grid (r R Γ_star : A)
  (δ_vals k_tilde_vals b_vals : ndarray A) (nδ nk nb : nat) :
  shape δ_vals = [nδ] -> shape k_tilde_vals = [nk] -> shape b_vals = [nb] ->
  nδ * nk * nb = 0 ->
  exists next_w next_w_star,
    returns (create_next_w r δ_vals k_tilde_vals b_vals R Γ_star)
            (next_w, next_w_star) /\
    shape next_w = [nδ; nk; nb] /\ shape next_w_star = [nδ; nk; nb] /\
    ravel next_w = [] /\ ravel next_w_star = [].
Proof.
  intros Hδ Hk Hb H0.
  destruct (create_next_w_value r R Γ_star _ _ _ Hδ Hk Hb)
    as (nw & nws & H & Hs & Hs' & _).
  exists nw, nws. split; [exact H|]. split; [exact Hs|]. split; [exact Hs'|].
  assert (Hin : In 0 [nδ; nk; nb]).
  { simpl. destruct nδ; auto. destruct nk; auto. destruct nb; auto.
    discriminate. }
  unfold ravel. rewrite Hs, Hs', (indices_empty _ Hin). split; reflexivity.
Qed.

End CreateNextWEdges.

Section CreateNextWExact.

Context {A : Type} {D : Dtype A} {E : ExactArith A} {S : ExactSub A}.

(** Two products over one factor, recombined. *)
Lemma mul_sub_add (a x b : A) : add (mul (sub a x) b) (mul x b) = mul a b.
Proof.
  now rewrite <- (SRdistr_l exact_semiring), sub_add.
Qed.

Lemma mul_sub_add_r (x k b : A) : add (mul x (sub k b)) (mul x b) = mul x k.
Proof.
  now rewrite <- mul_add_distr_l, sub_add.
Qed.

(** The law of motion in terms of the risky position. *)
Lemma law_of_motion (x R k b : A) :
  add (mul x k) (mul (sub R x) b) = add (mul x (sub k b)) (mul R b).
Proof.
  rewrite <- (mul_sub_add_r x k b), <- (mul_sub_add R x b).
  rewrite <- !(SRadd_assoc exact_semiring). f_equal.
  apply (SRadd_comm exact_semiring).
Qed.

(** X12.  In exact arithmetic next-period wealth is the gross return [(1 +
    r) * δ] on the risky position [k_tilde - b] plus [R * b]; where
    [b_vals[b]] equals [k_tilde_vals[k]] it is [R * b_vals[b]], whatever [r]
    and [δ_vals] are. *)
Theorem create_next_w_portfolio (r R Γ_star : A)
  (δ_vals k_tilde_vals b_vals : ndarray A) (nδ nk nb : nat) :
  shape δ_vals = [nδ] -> shape k_tilde_vals = [nk] -> shape b_vals = [nb] ->
  exists next_w next_w_star,
    returns (create_next_w r δ_vals k_tilde_vals b_vals R Γ_star)
            (next_w, next_w_star) /\
    forall d k b, d < nδ -> k < nk -> b < nb ->
      item next_w [d; k; b] =
        ret (add (mul (mul (add one r) (elem δ_vals [d]))
                      (sub (elem k_tilde_vals [k]) (elem b_vals [b])))
                 (mul R (elem b_vals [b]))) /\
      (elem b_vals [b] = elem k_tilde_vals [k] ->
       item next_w [d; k; b] = ret (mul R (elem b_vals [b])) /\
       item next_w_star [d; k; b] =
         ret (add (mul R (elem b_vals [b])) Γ_star)).
Proof.
  intros Hδ Hk Hb.
  destruct (create_next_w_value r R Γ_star _ _ _ Hδ Hk Hb)
    as (nw & nws & H & Hs & Hs' & He).
  exists nw, nws. split; [exact H|].
  intros d k b Hd Hk' Hb'.
  destruct (He d k b Hd Hk' Hb') as [E1 E2].
  unfold item. rewrite Hs, Hs'. simpl. in_box. simpl.
  rewrite E2, E1. split.
  - now rewrite law_of_motion.
  - intros <-.
    rewrite (SRadd_comm exact_semiring
               (mul (mul (add one r) (elem δ_vals [d])) (elem b_vals [b]))).
    now rewrite mul_sub_add.
Qed.

End CreateNextWExact.

(** ** The further properties at work *)

Section FurtherWitnesses.

Import Float64 Examples.

Open Scope float_scope.

(** The utility grid of the small model has the shape of its action
    values. *)
Lemma create_uc_grid_fits_k_tilde_av_witness :
  (shape w_vals = [3] /\ shape k_tilde_vals = [2])%nat /\
  exists uc,
    returns (create_uc_grid zeroed sqrt
               (w_vals, ζ_vals, ι_vals, k_tilde_vals) 2 0.125) uc /\
    shape uc = [2; 2; 3; 2]%nat.
Proof.
  split; [split; reflexivity|].
  assert (H : exists uc,
             returns (create_uc_grid zeroed sqrt
                        (w_vals, ζ_vals, ι_vals, k_tilde_vals) 2 0.125) uc)
    by (eexists; reflexivity).
  destruct H as [uc H]. exists uc. split; [exact H|].
  exact (proj1 (@create_uc_grid_fits_k_tilde_av float float64 zeroed sqrt
                  w_vals ζ_vals ι_vals k_tilde_vals b_vals 2 0.125 3 2 uc
                  eq_refl eq_refl H)).
Defined.

(** No invention state and a two-dimensional productivity grid. *)
Lemma create_uc_grid_without_invention_states_witness :
  (shape w_vals = [3] /\ shape k_tilde_vals = [2] /\
   size (array1 (@nil float)) = 0)%nat /\
  raises (create_uc_grid zeroed sqrt
            (w_vals, two_rows, array1 [], k_tilde_vals) 2 0.125) IndexError.
Proof.
  split; [repeat split|].
  exact (@create_uc_grid_without_invention_states float float64 zeroed sqrt
           w_vals two_rows (array1 []) k_tilde_vals 2 0.125 3 2
           eq_refl eq_refl eq_refl).
Defined.

(** Two buffers, one of zeros and one of sevens, on a two-dimensional
    invention grid. *)
Lemma create_uc_grid_ignores_garbage_witness :
  (shape w_vals = [3] /\ shape k_tilde_vals = [2])%nat /\
  same_outcome
    (create_uc_grid zeroed sqrt (w_vals, ζ_vals, two_rows, k_tilde_vals)
                    2 0.125)
    (create_uc_grid (fun _ => 7) sqrt
                    (w_vals, ζ_vals, two_rows, k_tilde_vals) 2 0.125).
Proof.
  split; [split; reflexivity|].
  exact (@create_uc_grid_ignores_garbage float float64 zeroed (fun _ => 7)
           sqrt w_vals ζ_vals two_rows k_tilde_vals 2 0.125 3 2
           eq_refl eq_refl).
Defined.

End FurtherWitnesses.

Section FloorWitnesses.

Import Float64 Examples.

Open Scope float_scope.

(** Wealth 3 and net investment 0.5 leave 2.5, above the floor 0.125: the
    entry is its square root. *)
Lemma create_uc_grid_above_floor_witness :
  (shape w_vals = [3] /\ shape ζ_vals = [2] /\ shape ι_vals = [2] /\
   shape k_tilde_vals = [2])%nat /\
  ltb 0.125 (raw_consumption w_vals ζ_vals k_tilde_vals 2 1 0 2 0) = true /\
  exists uc,
    returns (create_uc_grid zeroed sqrt
               (w_vals, ζ_vals, ι_vals, k_tilde_vals) 2 0.125) uc /\
    item uc [1; 0; 2; 0]%nat = ret (sqrt 2.5).
Proof.
  split; [repeat split|]. split; [reflexivity|].
  assert (H : exists uc,
             returns (create_uc_grid zeroed sqrt
                        (w_vals, ζ_vals, ι_vals, k_tilde_vals) 2 0.125) uc)
    by (eexists; reflexivity).
  destruct H as [uc H]. exists uc. split; [exact H|].
  exact (@create_uc_grid_above_floor float float64 zeroed sqrt
           w_vals ζ_vals ι_vals k_tilde_vals 2 0.125 3 2 2 2 uc
           eq_refl eq_refl eq_refl eq_refl H 1 0 2 0
           (below 1 2 eq_refl) (below 0 2 eq_refl) (below 2 3 eq_refl)
           (below 0 2 eq_refl) eq_refl).
Defined.

(** Wealth 1 and net investment 1.5 leave -0.5, below the floor 0.125: the
    entry is the square root of the floor. *)
Lemma create_uc_grid_below_floor_witness :
  (shape w_vals = [3] /\ shape ζ_vals = [2] /\ shape ι_vals = [2] /\
   shape k_tilde_vals = [2])%nat /\
  ltb (raw_consumption w_vals ζ_vals k_tilde_vals 2 1 0 0 1) 0.125 = true /\
  exists uc,
    returns (create_uc_grid zeroed sqrt
               (w_vals, ζ_vals, ι_vals, k_tilde_vals) 2 0.125) uc /\
    item uc [1; 0; 0; 1]%nat = ret (sqrt 0.125).
Proof.
  split; [repeat split|]. split; [reflexivity|].
  assert (H : exists uc,
             returns (create_uc_grid zeroed sqrt
                        (w_vals, ζ_vals, ι_vals, k_tilde_vals) 2 0.125) uc)
    by (eexists; reflexivity).
  destruct H as [uc H]. exists uc. split; [exact H|].
  exact (@create_uc_grid_below_floor zeroed sqrt
           w_vals ζ_vals ι_vals k_tilde_vals 2 0.125 3 2 2 2 uc
           eq_refl eq_refl eq_refl eq_refl H 1 0 0 1
           (below 1 2 eq_refl) (below 0 2 eq_refl) (below 0 3 eq_refl)
           (below 1 2 eq_refl) eq_refl).
Defined.

(** Three invention states: the branches of index 1 and 2 agree, also
    across productivity grids and wages. *)
Lemma create_uc_grid_branches_without_labor_witness :
  (shape w_vals = [3] /\ shape ζ_vals = [2] /\
   shape (array1 [30; 40]%float) = [2] /\
   shape (array1 [0; 1; 2]%float) = [3] /\
   shape k_tilde_vals = [2])%nat /\
  exists uc uc',
    returns (create_uc_grid zeroed sqrt
               (w_vals, ζ_vals, array1 [0; 1; 2], k_tilde_vals) 2 0.125)
            uc /\
    returns (create_uc_grid zeroed sqrt
               (w_vals, array1 [30; 40], array1 [0; 1; 2], k_tilde_vals)
               5 0.125) uc' /\
    item uc [1; 0; 2; 0]%nat = item uc' [2; 1; 2; 0]%nat /\
    item uc [1; 0; 2; 0]%nat = ret (sqrt 2.5).
Proof.
  split; [repeat split|].
  assert (H : exists uc,
             returns (create_uc_grid zeroed sqrt
                        (w_vals, ζ_vals, array1 [0; 1; 2], k_tilde_vals)
                        2 0.125) uc)
    by (eexists; reflexivity).
  assert (H' : exists uc,
             returns (create_uc_grid zeroed sqrt
                        (w_vals, array1 [30; 40], array1 [0; 1; 2],
                         k_tilde_vals) 5 0.125) uc)
    by (eexists; reflexivity).
  destruct H as [uc H]. destruct H' as [uc' H']. exists uc, uc'.
  split; [exact H|]. split; [exact H'|].
  exact (@create_uc_grid_branches_without_labor float float64 zeroed sqrt
           w_vals ζ_vals (array1 [30; 40]) (array1 [0; 1; 2]) k_tilde_vals
           2 5 0.125 3 2 3 2 uc uc'
           eq_refl eq_refl eq_refl eq_refl eq_refl H H' 1 2 0 1 2 0
           (conj (below 0 1 eq_refl) (below 1 3 eq_refl))
           (conj (below 0 2 eq_refl) (below 2 3 eq_refl))
           (below 0 2 eq_refl) (below 1 2 eq_refl) (below 2 3 eq_refl)
           (below 0 2 eq_refl)).
Defined.

(** A transition matrix given as a vector, as the docstring has it. *)
Lemma create_P_needs_matrix_witness :
  (ndim (array1 [0.5; 0.5]%float) <= 1)%nat /\
  raises (create_P (array1 [0.25; 0.75]) (array1 [0.5; 0.5]) point_mass)
         IndexError.
Proof.
  split; [apply Nat.le_refl|].
  exact (@create_P_needs_matrix float float64
           (array1 [0.25; 0.75]) (array1 [0.5; 0.5]) point_mass
           (Nat.le_refl 1)).
Defined.

(** No borrowing node. *)
Lemma create_next_w_empty_grid_witness :
  (shape δ_vals = [2] /\ shape k_tilde_vals = [2] /\
   shape (array1 (@nil float)) = [0] /\ 2 * 2 * 0 = 0)%nat /\
  exists next_w next_w_star,
    returns (create_next_w 0.5 δ_vals k_tilde_vals (array1 []) 1.5 4)
            (next_w, next_w_star) /\
    shape next_w = [2; 2; 0]%nat /\ shape next_w_star = [2; 2; 0]%nat /\
    ravel next_w = [] /\ ravel next_w_star = [].
Proof.
  split; [repeat split|].
  exact (@create_next_w_empty_grid float float64 0.5 1.5 4
           δ_vals k_tilde_vals (array1 []) 2 2 0
           eq_refl eq_refl eq_refl eq_refl).
Defined.

(** With the identity as utility: consumption -0.5 is floored to 0.125,
    below the 42.5 of the worker with wealth 3. *)
Lemma create_uc_grid_monotone_witness :
  (shape w_vals = [3] /\ shape ζ_vals = [2] /\ shape ι_vals = [2] /\
   shape k_tilde_vals = [2])%nat /\
  is_nan 0.125 = false /\ nondecreasing_from 0.125 (fun c : float => c) /\
  leb (raw_consumption w_vals ζ_vals k_tilde_vals 2 1 0 0 1)
      (raw_consumption w_vals ζ_vals k_tilde_vals 2 0 1 2 0) = true /\
  exists uc y y',
    returns (create_uc_grid zeroed (fun c => c)
               (w_vals, ζ_vals, ι_vals, k_tilde_vals) 2 0.125) uc /\
    item uc [1; 0; 0; 1]%nat = ret y /\
    item uc [0; 1; 2; 0]%nat = ret y' /\
    leb y y' = true.
Proof.
  split; [repeat split|]. split; [reflexivity|].
  split; [exact (fun a b _ H => H)|]. split; [reflexivity|].
  assert (H : exists uc,
             returns (create_uc_grid zeroed (fun c => c)
                        (w_vals, ζ_vals, ι_vals, k_tilde_vals) 2 0.125) uc)
    by (eexists; reflexivity).
  destruct H as [uc H].
  destruct (@create_uc_grid_monotone zeroed (fun c => c)
              w_vals ζ_vals ι_vals k_tilde_vals 2 0.125 3 2 2 2 uc
              eq_refl eq_refl eq_refl eq_refl eq_refl
              (fun a b _ H => H) H 1 0 0 1 0 1 2 0
              (below 1 2 eq_refl) (below 0 2 eq_refl) (below 0 3 eq_refl)
              (below 1 2 eq_refl) (below 0 2 eq_refl) (below 1 2 eq_refl)
              (below 2 3 eq_refl) (below 0 2 eq_refl) eq_refl)%nat
    as (y & y' & Hy & Hy' & Hle).
  exists uc, y, y'. auto.
Defined.

End FloorWitnesses.

Section ExactWitnesses.

Import Examples.

(** Marginalising δ and ι out of the tensor of the rational inputs. *)
Lemma create_P_marginal_transition_witness :
  (shape quarters = [2] /\ shape mixing = [2; 2] /\
   shape certain = [1])%nat /\
  sums_to_one quarters /\ sums_to_one certain /\ (1 < 2 /\ 0 < 2)%nat /\
  exists P sl,
    returns (create_P quarters mixing certain) P /\
    returns (P.[Slice, Int 1, Int 0, Slice]) sl /\
    sum sl = Q2Qc (1 # 4).
Proof.
  split; [repeat split|].
  split; [exact (proj2 quarters_distribution)|].
  split; [exact (proj2 certain_distribution)|].
  split; [split; apply below; reflexivity|].
  destruct (@create_P_marginal_transition Qc rational rational_exact
              quarters mixing certain 2 2 2 1 eq_refl eq_refl eq_refl
              (proj2 quarters_distribution) (proj2 certain_distribution)
              1 0 (below 1 2 eq_refl) (below 0 2 eq_refl))
    as (P & sl & H & Hsl & Hs).
  exists P, sl. split; [exact H|]. split; [exact Hsl|].
  rewrite Hs. apply Qc_eq. reflexivity.
Defined.

(** Marginalising ζ_to and ι, or δ and ζ_to, out of the same tensor. *)
Lemma create_P_marginals_inputs_witness :
  (shape quarters = [2] /\ shape mixing = [2; 2] /\
   shape certain = [1])%nat /\
  stochastic mixing /\ (1 < 2 /\ 1 < 2 /\ 0 < 1)%nat /\
  sums_to_one certain /\ sums_to_one quarters /\
  exists P sδ sι,
    returns (create_P quarters mixing certain) P /\
    returns (P.[Int 1, Int 1, Slice, Slice]) sδ /\
    returns (P.[Slice, Int 1, Slice, Int 0]) sι /\
    sum sδ = Q2Qc (3 # 4) /\ sum sι = Q2Qc 1.
Proof.
  split; [repeat split|].
  split; [exact mixing_stochastic|].
  split; [repeat split; apply below; reflexivity|].
  split; [exact (proj2 certain_distribution)|].
  split; [exact (proj2 quarters_distribution)|].
  destruct (@create_P_marginals_inputs Qc rational rational_exact
              quarters mixing certain 2 2 2 1 eq_refl eq_refl eq_refl
              mixing_stochastic 1 1 0
              (below 1 2 eq_refl) (below 1 2 eq_refl) (below 0 1 eq_refl))
    as (P & sδ & sι & H & Hδ & Hι & Sδ & Sι).
  exists P, sδ, sι. split; [exact H|]. split; [exact Hδ|].
  split; [exact Hι|].
  rewrite (Sδ (proj2 certain_distribution)),
    (Sι (proj2 quarters_distribution)).
  split; apply Qc_eq; reflexivity.
Defined.

End ExactWitnesses.

Section RationalWitnesses.

Import ExactExamples.

(** The rational grids with [r = 1/10] and [R = 21/20]: where
    [b_vals[1] = k_tilde_vals[1] = 1] next-period wealth is [R]. *)
Lemma create_next_w_portfolio_witness :
  (shape δ_vals = [2] /\ shape k_tilde_vals = [2] /\ shape b_vals = [2]) /\
  exists next_w next_w_star,
    returns (create_next_w (Q2Qc (1 # 10)) δ_vals k_tilde_vals b_vals
               (Q2Qc (21 # 20)) (Q2Qc 5))
            (next_w, next_w_star) /\
    item next_w [0; 1; 1] = ret (Q2Qc (21 # 20)) /\
    item next_w_star [0; 1; 1] = ret (Q2Qc (121 # 20)).
Proof.
  split; [repeat split|].
  destruct (@create_next_w_portfolio Qc rational rational_exact rational_sub
              (Q2Qc (1 # 10)) (Q2Qc (21 # 20)) (Q2Qc 5)
              δ_vals k_tilde_vals b_vals 2 2 2 eq_refl eq_refl eq_refl)
    as (nw & nws & H & He).
  exists nw, nws. split; [exact H|].
  destruct (He 0 1 1 (below 0 2 eq_refl) (below 1 2 eq_refl)
               (below 1 2 eq_refl)) as [_ Hb].
  destruct (Hb eq_refl) as [H1 H2].
  rewrite H1, H2.
  split; apply (f_equal (@inr exn Qc)); apply Qc_eq; reflexivity.
Defined.

End RationalWitnesses.
